(** * World Bank indicator resolution: slot normalisation, query terms,
      constraint filter, scorer and resolver

    A shallow embedding of [src/parser.py] and [src/resolver.py], with the
    document and query text of [src/indexer.py] and the retry loop and the
    payload reader of [src/api_client.py].

    Conventions of the embedding.
    - A Python [str] is a Rocq [string] whose characters are read as the code
      points U+0000..U+00FF.  The character classes of [str.lower],
      [str.strip], [str.isdigit] and of the [re] module are the Unicode ones
      restricted to that range.
    - A Python [float] is a binary64 number of [PrimFloat].
    - The candidate dictionaries built by [resolve] live in a heap indexed by
      references, because the scorer updates them in place.
    - An exception is a value of [exn]; code that may raise runs in the
      monad [M].
    - The client runs against a [World]: the replies of [requests.get], call
      by call, and what [time.sleep] raises; the calls made are counted in
      [Calls].  A decoded payload is a value of [json]; [float] on a string
      is a parameter of the payload reader. *)

From Stdlib Require Import String Ascii ZArith NArith List Bool Lia Floats Sorted.
From stdpp Require Import base option list strings pretty gmap.

Set Warnings "-inexact-float".

(** ** Python strings *)

Module PyStr.

Definition code (c : ascii) : N := N_of_ascii c.

Definition between (lo hi : N) (c : ascii) : bool :=
  (lo <=? code c)%N && (code c <=? hi)%N.

Definition is_code (n : N) (c : ascii) : bool := (code c =? n)%N.

(** [str.isspace] on one character: TAB..CR, FS..US, SPACE, NEL, NBSP. *)
Definition isspace (c : ascii) : bool :=
  between 9 13 c || between 28 32 c || is_code 133 c || is_code 160 c.

(** Unicode decimal digits (category Nd): only [0-9] below U+0100. *)
Definition isdecimal (c : ascii) : bool := between 48 57 c.

(** [str.isdigit] on one character also accepts the superscripts
    U+00B2, U+00B3 and U+00B9. *)
Definition isdigit_char (c : ascii) : bool :=
  isdecimal c || is_code 178 c || is_code 179 c || is_code 185 c.

Definition isalpha (c : ascii) : bool :=
  between 65 90 c || between 97 122 c
  || is_code 170 c || is_code 181 c || is_code 186 c
  || between 192 214 c || between 216 246 c || between 248 255 c.

(** [str.isalnum] on one character: alphabetic, or decimal, digit or
    numeric (the vulgar fractions U+00BC..U+00BE are numeric). *)
Definition isalnum (c : ascii) : bool :=
  isalpha c || isdigit_char c || between 188 190 c.

(** [str.lower] on one character: [A-Z] and U+00C0..U+00DE but U+00D7. *)
Definition lower_char (c : ascii) : ascii :=
  if between 65 90 c || (between 192 222 c && negb (is_code 215 c))
  then ascii_of_N (code c + 32)
  else c.

Fixpoint lower (s : string) : string :=
  match s with
  | EmptyString => EmptyString
  | String c s' => String (lower_char c) (lower s')
  end.

Fixpoint lstrip (s : string) : string :=
  match s with
  | EmptyString => EmptyString
  | String c s' => if isspace c then lstrip s' else s
  end.

Fixpoint rstrip (s : string) : string :=
  match s with
  | EmptyString => EmptyString
  | String c s' =>
      match rstrip s' with
      | EmptyString => if isspace c then EmptyString else String c EmptyString
      | r => String c r
      end
  end.

Definition strip (s : string) : string := rstrip (lstrip s).

(** [s.startswith(p)] *)
Definition startswith (s p : string) : bool := String.prefix p s.

(** [s.endswith(p)] *)
Fixpoint endswith (s p : string) : bool :=
  String.eqb s p
  || match s with
     | EmptyString => false
     | String _ s' => endswith s' p
     end.

(** [needle in hay] *)
Fixpoint contains (needle hay : string) : bool :=
  String.prefix needle hay
  || match hay with
     | EmptyString => false
     | String _ hay' => contains needle hay'
     end.

(** [s.replace(old, new)] for one-character [old] and [new]. *)
Fixpoint replace (old new : ascii) (s : string) : string :=
  match s with
  | EmptyString => EmptyString
  | String c s' =>
      String (if Ascii.eqb c old then new else c) (replace old new s')
  end.

Fixpoint all_chars (p : ascii -> bool) (s : string) : bool :=
  match s with
  | EmptyString => true
  | String c s' => p c && all_chars p s'
  end.

(** [s.isdigit()]: non-empty and every character a digit. *)
Definition isdigit (s : string) : bool :=
  match s with
  | EmptyString => false
  | _ => all_chars isdigit_char s
  end.

(** Truth value of a string: non-empty. *)
Definition truthy (s : string) : bool :=
  match s with EmptyString => false | _ => true end.

Fixpoint int_digits (acc : Z) (s : string) : option Z :=
  match s with
  | EmptyString => Some acc
  | String c s' =>
      if isdecimal c
      then int_digits (10 * acc + Z.of_N (code c - 48)) s'
      else None
  end.

(** [int(s)] on a string that passed [isdigit]: the decimal value when all
    characters are decimal digits, [None] (a [ValueError]) on a superscript
    digit.  The interpreter's optional limit on the number of digits is
    taken as disabled. *)
Definition int (s : string) : option Z :=
  match s with
  | EmptyString => None
  | _ => int_digits 0 s
  end.

(** [sep.join(bits)] *)
Fixpoint join (sep : string) (bits : list string) : string :=
  match bits with
  | [] => EmptyString
  | [b] => b
  | b :: rest => b +:+ sep +:+ join sep rest
  end.

End PyStr.

(** ** The fragment of [re] used by the query term builder *)

Module Re.

Inductive regex : Type :=
| Empty
| Char (p : ascii -> bool)
| Cat (r1 r2 : regex)
| Alt (r1 r2 : regex)
| Star (greedy : bool) (r : regex)
| Boundary.

Definition Plus (r : regex) : regex := Cat r (Star true r).
Definition Opt (r : regex) : regex := Alt r Empty.

(** A literal under [re.IGNORECASE]: the lowered character is compared. *)
Fixpoint lit (s : string) : regex :=
  match s with
  | EmptyString => Empty
  | String c s' => Cat (Char (fun x => Ascii.eqb (PyStr.lower_char x) c)) (lit s')
  end.

(** An exact character. *)
Definition chr (c : ascii) : regex := Char (Ascii.eqb c).

Definition is_word (c : option ascii) : bool :=
  match c with
  | Some a => PyStr.isalnum a || Ascii.eqb a "_"
  | None => false
  end.

Definition first (s : string) : option ascii :=
  match s with
  | EmptyString => None
  | String c _ => Some c
  end.

(** A match result: the last character consumed so far and the rest. *)
Definition cont : Type := option ascii -> string -> option (option ascii * string).

(** Backtracking matcher in continuation-passing style, trying the
    alternatives in the order of [re]: left branch of [|] first, one more
    iteration first for a greedy [*], the continuation first for a lazy
    one.  [prev] is the character before the current position, for [\b].
    An iteration of [*] has to consume a character. *)
Fixpoint run (r : regex) (prev : option ascii) (s : string) (k : cont)
  : option (option ascii * string) :=
  match r with
  | Empty => k prev s
  | Char p =>
      match s with
      | EmptyString => None
      | String c s' => if p c then k (Some c) s' else None
      end
  | Cat r1 r2 => run r1 prev s (fun prev' s' => run r2 prev' s' k)
  | Alt r1 r2 =>
      match run r1 prev s k with
      | Some m => Some m
      | None => run r2 prev s k
      end
  | Star greedy r1 =>
      (fix loop (fuel : nat) (prev : option ascii) (s : string) :=
         match fuel with
         | O => k prev s
         | S fuel' =>
             let more :=
               run r1 prev s (fun prev' s' =>
                 if (String.length s' <? String.length s)%nat
                 then loop fuel' prev' s'
                 else None) in
             if greedy
             then match more with Some m => Some m | None => k prev s end
             else match k prev s with Some m => Some m | None => more end
         end) (String.length s) prev s
  | Boundary =>
      if xorb (is_word prev) (is_word (first s)) then k prev s else None
  end.

(** [pattern.match] at the current position. *)
Definition match_here (r : regex) (prev : option ascii) (s : string)
  : option (option ascii * string) :=
  run r prev s (fun prev' s' => Some (prev', s')).

(** [re.sub(pattern, repl, s)]: leftmost matches, left to right, without
    overlap.  The patterns below never match the empty string, so a match
    that consumes nothing is treated as no match. *)
Fixpoint sub_from (fuel : nat) (r : regex) (repl : string)
    (prev : option ascii) (s : string) : string :=
  match fuel with
  | O => s
  | S fuel' =>
      match s with
      | EmptyString => EmptyString
      | String c s' =>
          match match_here r prev s with
          | Some (prev', rest) =>
              if (String.length rest <? String.length s)%nat
              then repl +:+ sub_from fuel' r repl prev' rest
              else String c (sub_from fuel' r repl (Some c) s')
          | None => String c (sub_from fuel' r repl (Some c) s')
          end
      end
  end.

Definition sub (r : regex) (repl : string) (s : string) : string :=
  sub_from (String.length s) r repl None s.

End Re.

(** ** Python floats *)

Module PyFloat.

Local Open Scope float_scope.

(** [max(a, b)]: the second argument is taken only when it is greater. *)
Definition max (a b : float) : float := if a <? b then b else a.

(** Round the non-negative rational [num / den] to an integer, ties to even. *)
Definition round_half_even (num den : Z) : Z :=
  let q := (num / den)%Z in
  let r := (num mod den)%Z in
  match (2 * r ?= den)%Z with
  | Lt => q
  | Gt => (q + 1)%Z
  | Eq => if Z.even q then q else (q + 1)%Z
  end.

Definition digit (d : Z) : string :=
  String (ascii_of_N (48 + Z.to_N d)) EmptyString.

(** The decimal rendering of a non-negative number of thousandths. *)
Definition thousandths (n : Z) : string :=
  let r := (n mod 1000)%Z in
  pretty (Z.to_N (n / 1000)) +:+ "."
  +:+ digit (r / 100) +:+ digit ((r / 10) mod 10) +:+ digit (r mod 10).

(** [format(x, ".3f")]: the exact binary value rounded to three decimals,
    ties to even; the sign is kept even when the digits are all zero. *)
Definition format_3f (x : float) : string :=
  match Prim2SF x with
  | S754_nan => "nan"
  | S754_infinity s => if s then "-inf" else "inf"
  | S754_zero s => (if s then "-" else "") +:+ "0.000"
  | S754_finite s m e =>
      let n := if (0 <=? e)%Z
               then (Z.pos m * 2 ^ e * 1000)%Z
               else round_half_even (Z.pos m * 1000) (2 ^ (- e)) in
      (if s then "-" else "") +:+ thousandths n
  end.

End PyFloat.

(** ** Slots *)

(** The dictionary returned by the question parser: every key is present and
    holds a value of the type the parser gives it. *)
Record Slots : Type := mkSlots {
  country_text : string;
  time_mode : string;
  year : option Z;
  start_year : option Z;
  end_year : option Z;
  latest_n : option Z;
  concept : string;
  unit_qualifiers : list string;
  sex : string;
  age_band : string;
  notes : string
}.

(** [x in uq] for [uq = set(unit_qualifiers)]. *)
Definition in_set (x : string) (uq : list string) : bool :=
  bool_decide (x ∈ uq).

(** Iteration over a [set] of strings visits every element once, in an order
    fixed by the interpreter (the hash seed of the process), not by the
    program. *)
Class SetOrder : Type := {
  set_iter : list string -> list string;
  set_iter_NoDup : forall l, NoDup (set_iter l);
  set_iter_elem : forall l x, x ∈ set_iter l <-> x ∈ l
}.

(** One admissible order: the list with its repeated entries removed. *)
#[refine] Instance insertion_order : SetOrder := {| set_iter := remove_dups |}.
Proof.
  - apply NoDup_remove_dups.
  - intros l x. apply elem_of_remove_dups.
Defined.

(** A dictionary literal with string keys. *)
Fixpoint dict_get (d : list (string * string)) (k : string) : option string :=
  match d with
  | [] => None
  | (k', v) :: d' => if String.eqb k' k then Some v else dict_get d' k
  end.

(** ** Indicator predicates ([resolver.py], module level) *)

Import PyStr.

Definition is_percent (ind_id name unit : string) : bool :=
  endswith ind_id ".ZS" || contains "%)" name || contains "%" unit
  || contains "percent" (lower unit).

Definition is_growth (ind_id name : string) : bool :=
  endswith ind_id ".ZG" || contains "growth (annual %)" (lower name).

Definition is_count (ind_id unit : string) : bool :=
  if endswith ind_id ".ZS" || endswith ind_id ".ZG" then false
  else endswith ind_id ".IN" || contains "number" (lower unit)
       || String.eqb (strip unit) "".

Definition is_ppp (ind_id name : string) : bool :=
  contains ".PP" ind_id || contains "ppp" (lower name).

Definition is_constant (ind_id name : string) : bool :=
  endswith ind_id ".KD" || contains "constant" (lower name).

Definition is_current_usd (ind_id name unit : string) : bool :=
  endswith ind_id ".CD" || contains "current us$" (lower name)
  || contains "current" (lower unit).

Definition has_sex (ind_id sex : string) : bool :=
  if String.eqb sex "female" then
    contains ".FE." ind_id || endswith ind_id ".FE.IN"
    || endswith ind_id ".FE.ZS" || endswith ind_id ".FE"
  else if String.eqb sex "male" then
    contains ".MA." ind_id || endswith ind_id ".MA.IN"
    || endswith ind_id ".MA.ZS" || endswith ind_id ".MA"
  else if String.eqb sex "total" then
    negb (contains ".FE." ind_id || contains ".MA." ind_id)
  else true.

Definition age_codes : list (string * string) :=
  [("65up", "65UP"); ("1524", "1524"); ("0t04", "0T04"); ("1564", "1564")].

Definition has_age (ind_id age_band : string) : bool :=
  if String.eqb age_band "none" then true
  else match dict_get age_codes age_band with
       | Some code => if truthy code then contains code ind_id else true
       | None => true
       end.

(** ** Query term builder *)

Section QueryTerms.

Import Re.

Definition seq (rs : list regex) : regex := foldr Cat Empty rs.

(** [\s] *)
Definition ws : regex := Char isspace.

(** [.] without DOTALL: any character but a newline. *)
Definition dot : regex := Char (fun c => negb (is_code 10 c)).

(** The class [[\d\-\+\sandabove]] under IGNORECASE. *)
Definition age_chars : regex :=
  Char (fun c => isdecimal c || Ascii.eqb c "-" || Ascii.eqb c "+" || isspace c
                 || contains (String (lower_char c) EmptyString) "andabove").

(** [ages?] *)
Definition ages : regex := Cat (lit "age") (Opt (lit "s")).

(** [\b(fe)?male\s+(ages?|age)\s+[\d\-\+\sandabove]+] *)
Definition re_sex_age : regex :=
  seq [Boundary; Opt (lit "fe"); lit "male"; Plus ws; Alt ages (lit "age");
       Plus ws; Plus age_chars].

(** [\b(fe)?male] *)
Definition re_sex : regex := seq [Boundary; Opt (lit "fe"); lit "male"].

(** [\bages?\s+[\d\-\+\sandabove]+] *)
Definition re_age : regex := seq [Boundary; ages; Plus ws; Plus age_chars].

(** [\s*\(ages?\s+[\d\-\+\sandabove]+\)] *)
Definition re_age_paren : regex :=
  seq [Star true ws; chr "("; ages; Plus ws; Plus age_chars; chr ")"].

(** [\s*\(.*?(male|female).*?\)] *)
Definition re_sex_paren : regex :=
  seq [Star true ws; chr "("; Star false dot; Alt (lit "male") (lit "female");
       Star false dot; chr ")"].

(** [\s+] *)
Definition re_spaces : regex := Plus ws.

(** The value of [concept] after the substitutions and the final [strip]. *)
Definition cleaned_concept (slots : Slots) : string :=
  let concept :=
    replace "013" " " (replace "010" " " (replace "_" " " (concept slots))) in
  let concept := sub re_sex_age "" concept in
  let concept := sub re_sex "" concept in
  let concept := sub re_age "" concept in
  let concept := sub re_age_paren "" concept in
  let concept := sub re_sex_paren "" concept in
  strip (sub re_spaces " " concept).

Definition qualifier_bits (bits : list string) (qualifier : string) : list string :=
  if String.eqb qualifier "percent_share" then bits ++ ["percent"]
  else if String.eqb qualifier "growth_rate" then bits ++ ["growth"]
  else if String.eqb qualifier "per_capita" then bits ++ ["per capita"]
  else if String.eqb qualifier "ppp" then bits ++ ["ppp"]
  else if String.eqb qualifier "current_usd" then bits ++ ["current"]
  else if String.eqb qualifier "constant_usd" then bits ++ ["constant"]
  else bits.

Definition age_map : list (string * string) :=
  [("65up", "65+"); ("1524", "15-24"); ("0t04", "0-4"); ("1564", "15-64")].

Context `{SetOrder}.

(** The list [bits] when the joining starts. *)
Definition query_bits (slots : Slots) : list string :=
  let concept := cleaned_concept slots in
  let bits := [] in
  let bits :=
    if truthy concept && negb (String.eqb concept "unknown")
    then bits ++ [concept] else bits in
  let bits := foldl qualifier_bits bits (set_iter (unit_qualifiers slots)) in
  let bits :=
    if truthy (sex slots) && negb (String.eqb (sex slots) "total")
    then bits ++ [sex slots] else bits in
  if truthy (age_band slots) && negb (String.eqb (age_band slots) "none")
  then bits ++ [default (age_band slots) (dict_get age_map (age_band slots))]
  else bits.

Definition build_query_terms (slots : Slots) : string :=
  let query := strip (join " " (query_bits slots)) in
  if truthy query then query else cleaned_concept slots.

End QueryTerms.

(** ** Exceptions, references and the heap *)

Inductive exn : Type :=
| ValueError (msg : string)
| KeyError (key : string)
| IndexError
| InvalidReference.

Inductive outcome (A : Type) : Type :=
| Return (a : A)
| Raise (e : exn).

Arguments Return {A} a.
Arguments Raise {A} e.

(** A candidate dictionary: the seven keys set by [resolve] and the key
    ["score"], absent until the scorer attaches it. *)
Record Candidate : Type := mkCandidate {
  c_id : string;
  c_name : string;
  c_unit : string;
  c_topics : string;
  c_sourceNote : string;
  c_source : string;
  c_semantic : float;
  c_score : option float
}.

(** [cand["score"] = v] *)
Definition set_score (cand : Candidate) (v : float) : Candidate :=
  {| c_id := c_id cand; c_name := c_name cand; c_unit := c_unit cand;
     c_topics := c_topics cand; c_sourceNote := c_sourceNote cand;
     c_source := c_source cand; c_semantic := c_semantic cand;
     c_score := Some v |}.

Definition loc : Type := positive.

Abbreviation heap := (gmap loc Candidate).

(** Computations that read and update the heap and may raise. *)
Definition M (A : Type) : Type := heap -> outcome A * heap.

Definition ret {A} (a : A) : M A := fun h => (Return a, h).

Definition raise {A} (e : exn) : M A := fun h => (Raise e, h).

Definition bind {A B} (m : M A) (k : A -> M B) : M B :=
  fun h =>
    match m h with
    | (Return a, h') => k a h'
    | (Raise e, h') => (Raise e, h')
    end.

Notation "'let*' x ':=' m 'in' k" :=
  (bind m (fun x => k))
  (at level 10, x name, m at level 100, k at level 200, only parsing).

(** A new dictionary. *)
Definition alloc (cand : Candidate) : M loc :=
  fun h => let l := fresh (dom h) in (Return l, <[l := cand]> h).

(** The dictionary behind a reference.  [InvalidReference] has no Python
    counterpart: a reference always points to a live object. *)
Definition load (l : loc) : M Candidate :=
  fun h =>
    match h !! l with
    | Some cand => (Return cand, h)
    | None => (Raise InvalidReference, h)
    end.

Definition store (l : loc) (cand : Candidate) : M unit :=
  fun h => (Return tt, <[l := cand]> h).

(** [x["score"]] *)
Definition get_score (l : loc) : M float :=
  let* cand := load l in
  match c_score cand with
  | Some v => ret v
  | None => raise (KeyError "score")
  end.

(** ** The resolver *)

(** A row of the indicator table.  [None] in the last four fields is a column
    the table does not have; a cell is taken as the string [str] gives. *)
Record Row : Type := mkRow {
  row_id : string;
  row_name : string;
  row_unit : option string;
  row_topics : option string;
  row_sourceNote : option string;
  row_source : option string
}.

Record IndicatorResolver : Type := mkResolver {
  ind_df : list Row;
  id2row : gmap string Row
}.

(** [IndicatorResolver.__init__]: a later row replaces an earlier one with
    the same id. *)
Definition new_resolver (ind_df : list Row) : IndicatorResolver :=
  {| ind_df := ind_df;
     id2row := foldl (fun m row => <[row_id row := row]> m) ∅ ind_df |}.

(** The tuple returned by [resolve]. *)
Record Resolution : Type := mkResolution {
  res_id : string;
  res_name : string;
  res_unit : string;
  res_confidence_margin : float;
  res_notes : string
}.

(** [list.sort(key=..., reverse=True)] on the decorated list: a stable sort
    by decreasing key, comparing keys with [<] only.  When [<] orders the
    keys totally (no NaN) the stable arrangement is unique, so every stable
    sort gives it.  With a NaN among the keys the order CPython leaves
    follows from its merge strategy and is not reproduced here; the
    properties below hold for any order of the returned list. *)
Fixpoint insert_desc {A} (x : float * A) (l : list (float * A)) : list (float * A) :=
  match l with
  | [] => [x]
  | y :: l' => if (x.1 <? y.1)%float then y :: insert_desc x l' else x :: l
  end.

Fixpoint sort_desc {A} (l : list (float * A)) : list (float * A) :=
  match l with
  | [] => []
  | x :: l' => insert_desc x (sort_desc l')
  end.

Section Resolver.

Local Open Scope float_scope.

Context `{SetOrder}.

(** The hard constraints on one candidate ([_apply_constraints], loop body):
    [false] where the source says [continue]. *)
Definition passes (uq : list string) (sex age : string) (cand : Candidate) : bool :=
  if in_set "ppp" uq && negb (is_ppp (c_id cand) (c_name cand)) then false
  else if in_set "growth_rate" uq && negb (is_growth (c_id cand) (c_name cand)) then false
  else if in_set "percent_share" uq
          && negb (is_percent (c_id cand) (c_name cand) (c_unit cand))
          && negb (contains "rate" (lower (c_name cand))) then false
  else if negb (has_sex (c_id cand) sex) then false
  else if negb (has_age (c_id cand) age) then false
  else true.

Fixpoint constraints_loop (uq : list string) (sex age : string)
    (candidates : list loc) : M (list loc) :=
  match candidates with
  | [] => ret []
  | cand :: rest =>
      let* c := load cand in
      let* filtered := constraints_loop uq sex age rest in
      ret (if passes uq sex age c then cand :: filtered else filtered)
  end.

Definition _apply_constraints (candidates : list loc) (slots : Slots) : M (list loc) :=
  let uq := unit_qualifiers slots in
  let sex := sex slots in
  let age := age_band slots in
  constraints_loop uq sex age candidates.

Definition unit_match (uq : list string) (cand : Candidate) : float :=
  let unit_match := 0 in
  let unit_match :=
    if in_set "ppp" uq && is_ppp (c_id cand) (c_name cand)
    then unit_match + 1 else unit_match in
  let unit_match :=
    if in_set "growth_rate" uq && is_growth (c_id cand) (c_name cand)
    then unit_match + 1 else unit_match in
  let unit_match :=
    if in_set "percent_share" uq && is_percent (c_id cand) (c_name cand) (c_unit cand)
    then unit_match + 1 else unit_match in
  let unit_match :=
    if in_set "count_number" uq && is_count (c_id cand) (c_unit cand)
    then unit_match + 1 else unit_match in
  let unit_match :=
    if in_set "constant_usd" uq && is_constant (c_id cand) (c_name cand)
    then unit_match + 1 else unit_match in
  let unit_match :=
    if in_set "current_usd" uq && is_current_usd (c_id cand) (c_name cand) (c_unit cand)
    then unit_match + 1 else unit_match in
  if in_set "per_capita" uq
     && (contains ".PC" (c_id cand) || contains "per capita" (lower (c_name cand)))
  then unit_match + 1 else unit_match.

Definition demo_match (sex age : string) (cand : Candidate) : float :=
  let demo_match := 0 in
  let demo_match :=
    if has_sex (c_id cand) sex then demo_match + 1 else demo_match in
  if has_age (c_id cand) age then demo_match + 1 else demo_match.

Definition prior (concept sex : string) (cand : Candidate) : float :=
  let prior := 0 in
  let prior :=
    if String.eqb concept "inflation" || String.eqb concept "inflation_cpi" then
      if contains "consumer prices (annual %)" (lower (c_name cand))
         || String.eqb (c_id cand) "FP.CPI.TOTL.ZG"
      then prior + 1 else prior
    else prior in
  let prior :=
    if String.eqb concept "gdp" then
      if startswith (c_id cand) "NY.GDP.MKTP" then prior + 1 else prior
    else prior in
  if String.eqb concept "population" then
    if String.eqb (c_id cand) "SP.POP.TOTL" && String.eqb sex "total" then prior + 2
    else if startswith (c_id cand) "SP.POP" then prior + 0.8
    else prior
  else prior.

(** The value assigned to [cand["score"]]. *)
Definition combined_score (slots : Slots) (cand : Candidate) : float :=
  let uq := unit_qualifiers slots in
  let sex := sex slots in
  let age := age_band slots in
  let concept := lower (concept slots) in
  0.45 * c_semantic cand
  + 0.25 * unit_match uq cand
  + 0.15 * demo_match sex age cand
  + 0.10 * prior concept sex cand
  + 0.05 * 0.0.

Fixpoint score_loop (slots : Slots) (candidates : list loc) : M unit :=
  match candidates with
  | [] => ret tt
  | cand :: rest =>
      let* c := load cand in
      let* _ := store cand (set_score c (combined_score slots c)) in
      score_loop slots rest
  end.

(** The keys [x["score"]] of the list, paired with its elements. *)
Fixpoint decorate (candidates : list loc) : M (list (float * loc)) :=
  match candidates with
  | [] => ret []
  | cand :: rest =>
      let* k := get_score cand in
      let* keyed := decorate rest in
      ret ((k, cand) :: keyed)
  end.

Definition _score_candidates (candidates : list loc) (slots : Slots) : M (list loc) :=
  let* _ := score_loop slots candidates in
  let* keyed := decorate candidates in
  ret ((sort_desc keyed).*2).

Definition candidate_of (row : Row) (semantic_score : float) : Candidate :=
  {| c_id := row_id row;
     c_name := row_name row;
     c_unit := default "" (row_unit row);
     c_topics := default "" (row_topics row);
     c_sourceNote := default "" (row_sourceNote row);
     c_source := default "" (row_source row);
     c_semantic := semantic_score;
     c_score := None |}.

Fixpoint build_candidates (self : IndicatorResolver)
    (search_results : list (string * float)) : M (list loc) :=
  match search_results with
  | [] => ret []
  | (ind_id, semantic_score) :: rest =>
      match id2row self !! ind_id with
      | None => build_candidates self rest
      | Some row =>
          let* cand := alloc (candidate_of row semantic_score) in
          let* candidates := build_candidates self rest in
          ret (cand :: candidates)
      end
  end.

Definition no_indicator_message (query : string) : string :=
  "No suitable indicator after constraints for query='" +:+ query +:+ "'".

Definition resolve (self : IndicatorResolver) (slots : Slots)
    (search_results : list (string * float)) : M Resolution :=
  let* candidates := build_candidates self search_results in
  let* filtered := _apply_constraints candidates slots in
  match filtered with
  | [] =>
      let query := build_query_terms slots in
      raise (ValueError (no_indicator_message query))
  | _ :: _ =>
      let* scored := _score_candidates filtered slots in
      match scored with
      | [] => raise IndexError
      | best_ref :: _ =>
          let* second_score :=
            match scored with
            | _ :: second :: _ => get_score second
            | _ => ret 0
            end in
          let* best_score := get_score best_ref in
          let confidence_margin := PyFloat.max 0 (best_score - second_score) in
          let query := build_query_terms slots in
          let* best := load best_ref in
          let notes :=
            "query='" +:+ query +:+ "', semantic="
            +:+ PyFloat.format_3f (c_semantic best) in
          ret {| res_id := c_id best; res_name := c_name best;
                 res_unit := c_unit best;
                 res_confidence_margin := confidence_margin;
                 res_notes := notes |}
      end
  end.

End Resolver.

(** ** The slot normaliser ([parser.py]) *)

(** The five text fields the extractor returns for a question. *)
Record Prediction : Type := mkPrediction {
  out_country : string;
  out_concept : string;
  out_year : string;
  out_unit : string;
  out_demographics : string
}.

(** [any(x in s for x in words)] *)
Definition any_in (words : list string) (s : string) : bool :=
  existsb (fun x => contains x s) words.

(** [value.strip() if value.strip().lower() != 'none' else None] *)
Definition unless_none (value : string) : option string :=
  if negb (String.eqb (lower (strip value)) "none") then Some (strip value) else None.

Definition invalid_literal (text : string) : exn :=
  ValueError ("invalid literal for int() with base 10: '" +:+ text +:+ "'").

(** [time_mode], [year] and [latest_n] (lines 51-59). *)
Definition time_slots (year_str q : string) : outcome (string * option Z * option Z) :=
  if truthy year_str && isdigit year_str then
    match int year_str with
    | Some y => Return ("single", Some y, None)
    | None => Raise (invalid_literal year_str)
    end
  else if contains "latest" q || contains "most recent" q then
    Return ("latest_n", None, Some 1%Z)
  else Return ("single", None, None).

(** [has_growth] (line 64). *)
Definition has_growth (q : string) : bool :=
  contains "growth rate" q || contains "growth" q || contains "yoy" q.

(** [unit_qualifiers] after lines 61-84. *)
Definition unit_slots (unit q : string) : list string :=
  let unit_qualifiers := [] in
  let has_growth := has_growth q in
  let unit_qualifiers :=
    if contains "per capita" unit || contains "per capita" q
    then unit_qualifiers ++ ["per_capita"] else unit_qualifiers in
  let unit_qualifiers :=
    if contains "ppp" unit || contains "ppp" q
    then unit_qualifiers ++ ["ppp"] else unit_qualifiers in
  let unit_qualifiers :=
    if negb has_growth then
      let unit_qualifiers :=
        if contains "constant" unit || contains "real" unit
        then unit_qualifiers ++ ["constant_usd"] else unit_qualifiers in
      if contains "current" unit || contains "nominal" unit || contains "usd" unit
      then unit_qualifiers ++ ["current_usd"] else unit_qualifiers
    else unit_qualifiers in
  if has_growth then unit_qualifiers ++ ["growth_rate"]
  else if contains "%" unit || contains "percent" unit
  then unit_qualifiers ++ ["percent_share"]
  else if contains " rate" q then
    if negb (contains "unemployment" q) && negb (contains "inflation" q)
       && negb (contains "cpi" q)
    then unit_qualifiers ++ ["percent_share"] else unit_qualifiers
  else unit_qualifiers.

(** [if "count_number" not in unit_qualifiers: unit_qualifiers.append(...)] *)
Definition add_count_number (unit_qualifiers : list string) : list string :=
  if negb (bool_decide ("count_number" ∈ unit_qualifiers))
  then unit_qualifiers ++ ["count_number"] else unit_qualifiers.

Definition rate_words : list string := ["growth"; "%"; "percent"; "share"; "ratio"].

(** [is_demographic_concept] (line 90). *)
Definition is_demographic_concept (concept : string) : bool :=
  any_in ["population"; "unemployment"; "life_expectancy"] concept.

(** [sex] and [unit_qualifiers] after lines 86-110. *)
Definition sex_slots (concept q demographics : string) (unit_qualifiers : list string)
  : string * list string :=
  let sex := "total" in
  let is_demographic_concept := is_demographic_concept concept in
  let '(sex, unit_qualifiers) :=
    if negb is_demographic_concept then ("total", unit_qualifiers)
    else if contains "total population" q || contains "total pop" q
            || (contains "population" q && contains "total" q) then
      ("total",
       if negb (any_in rate_words q) then add_count_number unit_qualifiers
       else unit_qualifiers)
    else if any_in ["female"; "females"; "women"; "woman"; "girls"] q then
      ("female", unit_qualifiers)
    else if any_in ["male"; "males"; "men"; "man"; "boys"] q
            && negb (any_in ["female"; "females"] q) then
      ("male", unit_qualifiers)
    else if contains "female" demographics || contains "women" demographics then
      ("female", unit_qualifiers)
    else if (contains "male" demographics || contains "men" demographics)
            && negb (contains "female" demographics) then
      ("male", unit_qualifiers)
    else (sex, unit_qualifiers) in
  if contains "population" concept && String.eqb sex "total"
     && negb (any_in rate_words q)
  then (sex, add_count_number unit_qualifiers)
  else (sex, unit_qualifiers).

(** [age_band] (lines 112-116).  The second literal of line 115 is a
    mis-encoded dash made of U+00E2, U+20AC and U+201C: it has code points
    above U+00FF, so no string of this model contains it. *)
Definition age_slot (demographics : string) : string :=
  let age_band := "none" in
  let age_band :=
    if contains "65" demographics && any_in ["+"; "plus"; "over"; "above"] demographics
    then "65up" else age_band in
  if contains "15-24" demographics || false then "1524" else age_band.

(** [concept] (lines 46-49). *)
Definition normalized_concept (parsed_concept q : string) : string :=
  let concept := replace " " "_" (lower parsed_concept) in
  if contains "cpi" q || contains "consumer price index" q
  then "inflation_cpi" else concept.

(** [QuestionParser._parse_with_dspy], given the extractor's answer
    [result] to [question]. *)
Definition _parse_with_dspy (result : Prediction) (question : string) : outcome Slots :=
  let parsed_country := strip (out_country result) in
  let parsed_concept := strip (out_concept result) in
  let parsed_year := strip (out_year result) in
  let parsed_unit := unless_none (out_unit result) in
  let parsed_demographics := unless_none (out_demographics result) in
  let q := lower question in
  let country_text := parsed_country in
  let concept := normalized_concept parsed_concept q in
  let year_str := parsed_year in
  match time_slots year_str q with
  | Raise e => Raise e
  | Return (time_mode, year, latest_n) =>
      let unit := lower (default "" parsed_unit) in
      let unit_qualifiers := unit_slots unit q in
      let demographics := lower (default "" parsed_demographics) in
      let '(sex, unit_qualifiers) := sex_slots concept q demographics unit_qualifiers in
      let age_band := age_slot demographics in
      Return {| country_text := country_text;
                time_mode := time_mode;
                year := year;
                start_year := None;
                end_year := None;
                latest_n := latest_n;
                concept := concept;
                unit_qualifiers := unit_qualifiers;
                sex := sex;
                age_band := age_band;
                notes := "DSPy+Ollama" |}
  end.

(** [QuestionParser.parse] *)
Definition parse (result : Prediction) (question : string) : outcome Slots :=
  _parse_with_dspy result question.

(** * Vocabulary of the properties *)

(** ** Numbers and year texts *)

(** A positive zero or a positive finite number: adding it never gives the
    negative zero. *)
Definition adds_no_neg_zero (d : float) : Prop :=
  match Prim2SF d with
  | S754_zero s => s = false
  | S754_finite s _ _ => s = false
  | _ => False
  end.

(** The year text is one [int] rejects although [isdigit] accepts it. *)
Definition bad_year (year_str : string) : Prop :=
  isdigit year_str = true /\ int year_str = None.

(** ** References and the dictionaries behind them *)

(** Every reference of the list points to a dictionary of the heap. *)
Definition live (h : heap) (ls : list loc) : Prop :=
  Forall (fun l => is_Some (h !! l)) ls.

(** The dictionary behind [l] satisfies [p]. *)
Definition holds (p : Candidate -> bool) (h : heap) (l : loc) : Prop :=
  Is_true (from_option p false (h !! l)).

#[global] Instance holds_dec p h l : Decision (holds p h l).
Proof. unfold holds. apply _. Defined.

(** The references [ls] point, in order, to the dictionaries [cs]. *)
Definition reads (h : heap) (ls : list loc) (cs : list Candidate) : Prop :=
  Forall2 (fun l c => h !! l = Some c) ls cs.

(** ** The constraint filter, the scorer and the resolver by value *)

(** The rejection rule in the words of the specification: [ppp] requested
    and not [is_ppp]; [growth_rate] requested and not [is_growth];
    [percent_share] requested and neither [is_percent] nor a name that
    contains "rate" (in any letter case); [has_sex] fails; [has_age] fails. *)
Definition rejected (slots : Slots) (cand : Candidate) : bool :=
  let uq := unit_qualifiers slots in
  (in_set "ppp" uq && negb (is_ppp (c_id cand) (c_name cand)))
  || (in_set "growth_rate" uq && negb (is_growth (c_id cand) (c_name cand)))
  || (in_set "percent_share" uq
      && negb (is_percent (c_id cand) (c_name cand) (c_unit cand)
               || contains "rate" (lower (c_name cand))))
  || negb (has_sex (c_id cand) (sex slots))
  || negb (has_age (c_id cand) (age_band slots)).

Definition accepted (slots : Slots) (cand : Candidate) : bool :=
  negb (rejected slots cand).

(** A candidate with its score attached. *)
Definition rescored (slots : Slots) (cand : Candidate) : Candidate :=
  set_score cand (combined_score slots cand).

(** The key [x["score"]] of a scored dictionary. *)
Definition key_of (h : heap) (l : loc) : float :=
  from_option (fun c => default 0%float (c_score c)) 0%float (h !! l).

Definition scored_in (h : heap) (l : loc) : Prop :=
  exists c v, h !! l = Some c /\ c_score c = Some v.

(** The dictionaries [resolve] builds: one for each search result whose id
    is in the table. *)
Definition found (self : IndicatorResolver) (search_results : list (string * float))
  : list Candidate :=
  omap (fun '(ind_id, semantic_score) =>
          (fun row => candidate_of row semantic_score) <$> (id2row self !! ind_id))
       search_results.

(** Two decorated lists with the same keys and related elements. *)
Definition key_rel {A B} (R : A -> B -> Prop) (x : float * A) (y : float * B) : Prop :=
  x.1 = y.1 /\ R x.2 y.2.

(** The dictionaries that pass the constraint filter. *)
Definition surviving (self : IndicatorResolver) (slots : Slots)
    (search_results : list (string * float)) : list Candidate :=
  filter (fun c => Is_true (accepted slots c)) (found self search_results).

(** The surviving dictionaries after scoring and sorting, with their keys. *)
Definition ranked (self : IndicatorResolver) (slots : Slots)
    (search_results : list (string * float)) : list (float * Candidate) :=
  sort_desc (map (fun c => (combined_score slots c, rescored slots c))
                 (surviving self slots search_results)).

Definition keyed_by_score (x : float * Candidate) : Prop := c_score x.2 = Some x.1.

Section Resolution.

Context `{SetOrder}.

Local Open Scope float_scope.

(** The outcome of [resolve], read off the ranked dictionaries. *)
Definition resolution (self : IndicatorResolver) (slots : Slots)
    (search_results : list (string * float)) : outcome Resolution :=
  match ranked self slots search_results with
  | [] => Raise (ValueError (no_indicator_message (build_query_terms slots)))
  | (best_score, best) :: rest =>
      let second_score := match rest with (s, _) :: _ => s | [] => 0 end in
      Return {| res_id := c_id best; res_name := c_name best;
                res_unit := c_unit best;
                res_confidence_margin := PyFloat.max 0 (best_score - second_score);
                res_notes := "query='" +:+ build_query_terms slots
                             +:+ "', semantic="
                             +:+ PyFloat.format_3f (c_semantic best) |}
  end.

End Resolution.

(** ** The sub-scores in the words of the specification *)

(** [+1] for each test that holds. *)
Definition hits (tests : list bool) : nat :=
  length (List.filter (fun hit => hit) tests).

(** The number [n] as a float. *)
Definition float_of_count (n : nat) : float :=
  SF2Prim (binary_normalize prec emax (Z.of_nat n) 0 false).

(** The predicate of the qualifier [per_capita]. *)
Definition is_per_capita (ind_id name : string) : bool :=
  contains ".PC" ind_id || contains "per capita" (lower name).

(** Each unit qualifier with its predicate on the candidate. *)
Definition qualifier_predicates (cand : Candidate) : list (string * bool) :=
  [("ppp", is_ppp (c_id cand) (c_name cand));
   ("growth_rate", is_growth (c_id cand) (c_name cand));
   ("percent_share", is_percent (c_id cand) (c_name cand) (c_unit cand));
   ("count_number", is_count (c_id cand) (c_unit cand));
   ("constant_usd", is_constant (c_id cand) (c_name cand));
   ("current_usd", is_current_usd (c_id cand) (c_name cand) (c_unit cand));
   ("per_capita", is_per_capita (c_id cand) (c_name cand))].

(** unitMatch: the requested qualifiers whose predicate holds. *)
Definition unit_hits (uq : list string) (cand : Candidate) : nat :=
  hits (map (fun '(qualifier, holds) => in_set qualifier uq && holds)
            (qualifier_predicates cand)).

(** demoMatch: [has_sex] and [has_age]. *)
Definition demo_hits (sex age : string) (cand : Candidate) : nat :=
  hits [has_sex (c_id cand) sex; has_age (c_id cand) age].

(** The boost table: the condition of each row and its boost. *)
Definition boost_table (concept sex : string) (cand : Candidate) : list (bool * float) :=
  let inflation := String.eqb concept "inflation" || String.eqb concept "inflation_cpi" in
  let gdp := String.eqb concept "gdp" in
  let population := String.eqb concept "population" in
  let total_population := String.eqb (c_id cand) "SP.POP.TOTL" && String.eqb sex "total" in
  [(inflation && (contains "consumer prices (annual %)" (lower (c_name cand))
                  || String.eqb (c_id cand) "FP.CPI.TOTL.ZG"), 1%float);
   (gdp && startswith (c_id cand) "NY.GDP.MKTP", 1%float);
   (population && total_population, 2%float);
   (population && negb total_population && startswith (c_id cand) "SP.POP", 0.8%float)].

(** prior: the boosts of the rows whose condition holds, added up. *)
Definition boost (concept sex : string) (cand : Candidate) : float :=
  fold_left (fun (total : float) (row : bool * float) =>
               if row.1 then (total + row.2)%float else total)
            (boost_table concept sex cand) 0%float.

(** ** Worked inputs *)

Definition gdp_question : string := "What is the GDP of Japan in 2020?".

Definition gdp_plain : Prediction :=
  mkPrediction "Japan" "GDP" "2020" "none" "none".

Definition gdp_with_age : Prediction :=
  mkPrediction "Japan" "GDP" "2020" "none" "women ages 65+".

Definition female_slots : Slots :=
  mkSlots "Japan" "single" None None None None "female" [] "total" "none" "DSPy+Ollama".

Definition gdp_current : Candidate :=
  mkCandidate "NY.GDP.MKTP.CD" "GDP (current US$)" "" "" "" "" 0.82 None.

Definition gdp_ppp : Candidate :=
  mkCandidate "NY.GDP.MKTP.PP.CD" "GDP, PPP (current international $)" "" "" "" ""
    0.78 None.

Definition gdp_heap : heap :=
  <[2%positive := gdp_ppp]> (<[1%positive := gdp_current]> ∅).

Definition gdp_refs : list loc := [1%positive; 2%positive].

Definition gdp_ppp_slots : Slots :=
  mkSlots "Japan" "single" (Some 2020%Z) None None None "gdp" ["ppp"] "total" "none"
    "DSPy+Ollama".

Definition gdp_table : IndicatorResolver :=
  new_resolver
    [mkRow "NY.GDP.MKTP.CD" "GDP (current US$)" None None None None;
     mkRow "NY.GDP.MKTP.PP.CD" "GDP, PPP (current international $)" None None None None].

Definition gdp_results : list (string * float) :=
  [("NY.GDP.MKTP.CD", 0.82%float); ("NY.GDP.MKTP.PP.CD", 0.78%float)].

(** The GDP request without a qualifier, and the two series found with the
    one of the lower semantic score first. *)
Definition gdp_total_slots : Slots :=
  mkSlots "Japan" "single" (Some 2020%Z) None None None "gdp" [] "total" "none"
    "DSPy+Ollama".

Definition gdp_results_low_first : list (string * float) :=
  [("NY.GDP.MKTP.PP.CD", 0.78%float); ("NY.GDP.MKTP.CD", 0.82%float)].

(** Four population series: the second and the third have the same
    semantic score, above that of the first and the fourth. *)
Definition pop_growth : Candidate :=
  mkCandidate "SP.POP.GROW" "Population growth (annual %)" "" "" "" "" 0.5 None.

Definition pop_1564 : Candidate :=
  mkCandidate "SP.POP.1564.TO" "Population ages 15-64, total" "" "" "" "" 0.75 None.

Definition pop_65up : Candidate :=
  mkCandidate "SP.POP.65UP.TO" "Population ages 65 and above, total" "" "" "" "" 0.75 None.

Definition pop_0014 : Candidate :=
  mkCandidate "SP.POP.0014.TO" "Population ages 0-14, total" "" "" "" "" 0.5 None.

Definition tie_heap : heap :=
  <[4%positive := pop_0014]> (<[3%positive := pop_65up]>
    (<[2%positive := pop_1564]> (<[1%positive := pop_growth]> ∅))).

Definition tie_refs : list loc := [1%positive; 2%positive; 3%positive; 4%positive].

Definition tie_slots : Slots :=
  mkSlots "Japan" "single" (Some 2020%Z) None None None "population" [] "total" "none"
    "DSPy+Ollama".

(** The score of the second and of the third series. *)
Definition tie_score : float := combined_score tie_slots pop_1564.

(** ** Proof steps *)

Ltac split_ifs :=
  repeat match goal with
         | |- context [if ?b then _ else _] => destruct b; simpl
         end.

(** Membership in a list given by its elements. *)
Ltac list_mem :=
  rewrite ?elem_of_app, ?elem_of_cons, ?elem_of_nil; intuition congruence.

(** * The rest of the pipeline *)

(** ** The time parameter of the request ([parser.py]) *)

(** Truth value of [slots.get(key)] for an integer or [None]. *)
Definition truthy_int (value : option Z) : bool :=
  match value with
  | Some v => negb (v =? 0)%Z
  | None => false
  end.

(** [f"{value}"] for an integer or [None]. *)
Definition str_int (value : option Z) : string :=
  match value with
  | Some v => pretty v
  | None => "None"
  end.

(** [build_time_params] *)
Definition build_time_params (slots : Slots) : string * option Z :=
  if String.eqb (time_mode slots) "single" && truthy_int (year slots) then
    ("date=" +:+ str_int (year slots), year slots)
  else if String.eqb (time_mode slots) "range" && truthy_int (start_year slots)
          && truthy_int (end_year slots) then
    ("date=" +:+ str_int (start_year slots) +:+ ":" +:+ str_int (end_year slots), None)
  else if String.eqb (time_mode slots) "latest_n" && truthy_int (latest_n slots) then
    ("mrv=" +:+ str_int (latest_n slots) +:+ "&gapfill=y", None)
  else ("mrv=1&gapfill=y", None).

(** ** The index: documents and query expansion ([indexer.py]) *)

(** The list [id_parts] of [build_document_corpus]. *)
Definition id_parts (ind_id : string) : list string :=
  let id_parts := [] in
  let id_parts := if contains ".FE" ind_id then id_parts ++ ["female"] else id_parts in
  let id_parts := if contains ".MA" ind_id then id_parts ++ ["male"] else id_parts in
  let id_parts :=
    if contains ".ZG" ind_id then id_parts ++ ["growth rate annual percentage"]
    else id_parts in
  let id_parts :=
    if contains ".ZS" ind_id then id_parts ++ ["percentage share"] else id_parts in
  let id_parts :=
    if contains ".CD" ind_id then id_parts ++ ["current US dollars"] else id_parts in
  let id_parts :=
    if contains ".KD" ind_id then id_parts ++ ["constant US dollars"] else id_parts in
  let id_parts :=
    if contains ".PP" ind_id then id_parts ++ ["PPP purchasing power parity"]
    else id_parts in
  let id_parts := if contains ".PC" ind_id then id_parts ++ ["per capita"] else id_parts in
  let id_parts :=
    if contains "1524" ind_id then id_parts ++ ["ages 15-24 youth"] else id_parts in
  if contains "65UP" ind_id then id_parts ++ ["ages 65 and above elderly"] else id_parts.

(** The document of one row (the loop body of [build_document_corpus]); a
    cell is taken as the string [str] gives, a missing column as the empty
    string. *)
Definition document (row : Row) : string :=
  let ind_id := row_id row in
  let name := row_name row in
  let unit := default "" (row_unit row) in
  let source_note := default "" (row_sourceNote row) in
  let topics := default "" (row_topics row) in
  let metadata := join " " (id_parts ind_id) in
  let title := strip (name +:+ " " +:+ unit) in
  strip (title +:+ ". " +:+ metadata +:+ ". " +:+ source_note +:+ ". Topics: " +:+ topics).

(** [build_document_corpus]: the lists [ids] and [docs]. *)
Definition build_document_corpus (ind_df : list Row) : list string * list string :=
  foldl (fun '(ids, docs) row => (ids ++ [row_id row], docs ++ [document row]))
        ([], []) ind_df.

(** [query_expanded] of [IndicatorIndex.search] (lines 76-94). *)
Definition expand_query (query : string) : string :=
  let query_expanded := query in
  let query_expanded :=
    if contains "female" (lower query) then query_expanded +:+ " women girls"
    else query_expanded in
  let query_expanded :=
    if contains "male" (lower query) then query_expanded +:+ " men boys"
    else query_expanded in
  let query_expanded :=
    if contains "population" (lower query) then query_expanded +:+ " people inhabitants"
    else query_expanded in
  let query_expanded :=
    if contains "gdp" (lower query) then query_expanded +:+ " gross domestic product economy"
    else query_expanded in
  let query_expanded :=
    if contains "unemployment" (lower query) then query_expanded +:+ " jobless without work"
    else query_expanded in
  let query_expanded :=
    if contains "inflation" (lower query) then query_expanded +:+ " cpi consumer price index"
    else query_expanded in
  let query_expanded :=
    if contains "65+" query
    then query_expanded +:+ " ages 65 and above elderly older senior"
    else query_expanded in
  if contains "15-24" query then query_expanded +:+ " youth young ages 15 to 24"
  else query_expanded.
(** ** The World Bank client ([api_client.py]) *)

Module ApiClient.

Local Open Scope Z_scope.

(** A decoded JSON value; an object as the list of its items. *)
#[local] Unset Elimination Schemes.
Inductive json : Type :=
| JNull
| JBool (b : bool)
| JInt (n : Z)
| JFloat (x : float)
| JStr (s : string)
| JList (items : list json)
| JDict (items : list (string * json)).
#[local] Set Elimination Schemes.

(** What the client and the calls it makes raise.  [Timeout] stands for
    [requests.Timeout] and its subclasses, [RequestException] for every other
    [requests.RequestException] with the text [str] gives, [OtherError] for
    an exception of no class named in the module. *)
Inductive error : Type :=
| Timeout
| RequestException (text : string)
| RuntimeError (msg : string)
| OverflowError
| ValueError
| TypeError
| AttributeError
| OtherError (name : string).

Inductive res (A : Type) : Type :=
| Ok (a : A)
| Fail (e : error).

Arguments Ok {A} a.
Arguments Fail {A} e.

(** A response: its status code and what [response.json()] gives. *)
Record Response : Type := mkResponse {
  status_code : Z;
  json_body : res json
}.

(** The world outside the client: the reply of the [n]-th call of
    [requests.get] for a URL, counted from 0, and what [time.sleep] raises,
    if anything. *)
Record World : Type := mkWorld {
  get : string -> nat -> res Response;
  sleep : float -> option error
}.

(** The calls made so far: the number of requests and the sleeps, in order. *)
Record Calls : Type := mkCalls {
  requests : nat;
  slept : list float
}.

Record WorldBankClient : Type := mkClient {
  timeout : Z;
  retries : Z
}.

Definition BASE_URL : string := "https://api.worldbank.org/v2".

(** [WorldBankClient.build_url] *)
Definition build_url (country_code indicator_code time_param : string) : string :=
  BASE_URL +:+ "/country/" +:+ country_code +:+ "/indicator/" +:+ indicator_code
  +:+ "?" +:+ time_param +:+ "&format=json&per_page=2000".

(** The conversion of an integer to a float: the nearest float, ties to
    even, and [OverflowError] when that is no finite number. *)
Definition float_of_int (n : Z) : res float :=
  let x := SF2Prim (binary_normalize prec emax n 0 false) in
  if PrimFloat.is_infinity x then Fail OverflowError else Ok x.

(** [0.5 * (2 ** attempt)] *)
Definition wait_time (attempt : Z) : res float :=
  match float_of_int (2 ^ attempt) with
  | Ok x => Ok (0.5 * x)%float
  | Fail e => Fail e
  end.

(** The [try] statement of one attempt: [inl last_error] when the attempt
    failed and the loop goes on, [inr] when [fetch] returns or an exception
    leaves it.  The warnings logged are left out. *)
Definition handle (e : error) : string + res json :=
  match e with
  | Timeout => inl "Request timeout"
  | RequestException text => inl text
  | _ => inr (Fail e)
  end.

Definition attempt_once (reply : res Response) : string + res json :=
  match reply with
  | Ok response =>
      if status_code response =? 200 then
        match json_body response with
        | Ok body => inr (Ok body)
        | Fail e => handle e
        end
      else inl ("HTTP " +:+ pretty (status_code response))
  | Fail e => handle e
  end.

(** [str(last_error)] *)
Definition str_error (last_error : option string) : string := default "None" last_error.

(** The loop of [fetch] from [attempt] on, with [n] attempts left. *)
Fixpoint fetch_loop (w : World) (self : WorldBankClient) (url : string) (n : nat)
    (attempt : Z) (last_error : option string) (c : Calls) : res json * Calls :=
  match n with
  | O =>
      (Fail (RuntimeError ("World Bank API error after " +:+ pretty (retries self + 1)
                           +:+ " attempts: " +:+ str_error last_error)), c)
  | S n' =>
      let reply := get w url (requests c) in
      let c := {| requests := S (requests c); slept := slept c |} in
      match attempt_once reply with
      | inr result => (result, c)
      | inl last_error =>
          if attempt <? retries self then
            match wait_time attempt with
            | Fail e => (Fail e, c)
            | Ok wait =>
                match sleep w wait with
                | Some e => (Fail e, c)
                | None =>
                    fetch_loop w self url n' (attempt + 1) (Some last_error)
                      {| requests := requests c; slept := slept c ++ [wait] |}
                end
            end
          else fetch_loop w self url n' (attempt + 1) (Some last_error) c
      end
  end.

(** [WorldBankClient.fetch] *)
Definition fetch (w : World) (self : WorldBankClient) (url : string) (c : Calls)
  : res json * Calls :=
  fetch_loop w self url (Z.to_nat (retries self + 1)) 0 None c.

End ApiClient.

(** ** Reading the payload ([WorldBankClient.parse_value]) *)

Module Payload.

Import ApiClient.

Local Open Scope Z_scope.

(** White space as [int] skips it at both ends of a string. *)
Definition int_space (c : ascii) : bool :=
  between 9 13 c || is_code 32 c || is_code 133 c || is_code 160 c.

Fixpoint lstrip_by (p : ascii -> bool) (s : string) : string :=
  match s with
  | EmptyString => EmptyString
  | String c s' => if p c then lstrip_by p s' else s
  end.

Fixpoint rstrip_by (p : ascii -> bool) (s : string) : string :=
  match s with
  | EmptyString => EmptyString
  | String c s' =>
      match rstrip_by p s' with
      | EmptyString => if p c then EmptyString else String c EmptyString
      | r => String c r
      end
  end.

(** Decimal digits with single underscores between them. *)
Fixpoint digits_value (acc : Z) (after_digit : bool) (s : string) : option Z :=
  match s with
  | EmptyString => if after_digit then Some acc else None
  | String c s' =>
      if isdecimal c then digits_value (10 * acc + Z.of_N (code c - 48)) true s'
      else if Ascii.eqb c "_" && after_digit then digits_value acc false s'
      else None
  end.

(** [int(s)] for a string: [None] is a [ValueError].  The interpreter's
    optional limit on the number of digits is taken as disabled. *)
Definition int_of_str (s : string) : option Z :=
  match rstrip_by int_space (lstrip_by int_space s) with
  | String "+" digits => digits_value 0 false digits
  | String "-" digits => Z.opp <$> digits_value 0 false digits
  | digits => digits_value 0 false digits
  end.

(** [int(x)] for a float: the value with its fraction dropped. *)
Definition int_of_float (x : float) : res Z :=
  match Prim2SF x with
  | S754_nan => Fail ValueError
  | S754_infinity _ => Fail OverflowError
  | S754_zero _ => Ok 0
  | S754_finite s m e =>
      let magnitude :=
        match e with
        | Zneg k => Z.shiftr (Zpos m) (Zpos k)
        | _ => Z.shiftl (Zpos m) e
        end in
      Ok (if s then - magnitude else magnitude)
  end.

Section Conversions.

(** [float(s)] for a string, [None] for a [ValueError]. *)
Variable float_of_str : string -> option float.

(** [int(v)] *)
Definition py_int (v : json) : res Z :=
  match v with
  | JNull => Fail TypeError
  | JBool b => Ok (if b then 1 else 0)
  | JInt n => Ok n
  | JFloat x => int_of_float x
  | JStr s => match int_of_str s with Some n => Ok n | None => Fail ValueError end
  | JList _ | JDict _ => Fail TypeError
  end.

(** [float(v)] *)
Definition py_float (v : json) : res float :=
  match v with
  | JNull => Fail TypeError
  | JBool b => Ok (if b then 1 else 0)%float
  | JInt n => float_of_int n
  | JFloat x => Ok x
  | JStr s => match float_of_str s with Some x => Ok x | None => Fail ValueError end
  | JList _ | JDict _ => Fail TypeError
  end.

(** [row.get(key)] on the items of a dict; [None] is [JNull]. *)
Fixpoint item (items : list (string * json)) (key : string) : json :=
  match items with
  | [] => JNull
  | (k, v) :: items' => if String.eqb k key then v else item items' key
  end.

(** [v is None] *)
Definition is_none (v : json) : bool :=
  match v with JNull => true | _ => false end.

(** [except (ValueError, TypeError)] *)
Definition caught (e : error) : bool :=
  match e with ValueError | TypeError => true | _ => false end.

(** The first loop: [None] when it ends without returning. *)
Fixpoint exact_year (data : list json) (requested_year : Z) : option (res (float * Z)) :=
  match data with
  | [] => None
  | JDict items :: rest =>
      match py_int (item items "date") with
      | Ok year =>
          if (year =? requested_year) && negb (is_none (item items "value")) then
            match py_float (item items "value") with
            | Ok value => Some (Ok (value, year))
            | Fail e => if caught e then exact_year rest requested_year else Some (Fail e)
            end
          else exact_year rest requested_year
      | Fail e => if caught e then exact_year rest requested_year else Some (Fail e)
      end
  | _ :: _ => Some (Fail AttributeError)
  end.

(** The second loop and the final [return None, None]. *)
Fixpoint first_available (data : list json) : res (option float * option Z) :=
  match data with
  | [] => Ok (None, None)
  | JDict items :: rest =>
      if negb (is_none (item items "value")) then
        match py_float (item items "value") with
        | Ok value =>
            match py_int (item items "date") with
            | Ok year => Ok (Some value, Some year)
            | Fail e => if caught e then Ok (Some value, None) else Fail e
            end
        | Fail e => Fail e
        end
      else first_available rest
  | _ :: _ => Fail AttributeError
  end.

(** [WorldBankClient.parse_value] *)
Definition parse_value (payload : json) (requested_year : option Z)
  : res (option float * option Z) :=
  match payload with
  | JList (_ :: data :: _) =>
      match data with
      | JList data =>
          match requested_year with
          | Some y =>
              if negb (y =? 0) then
                match exact_year data y with
                | Some (Ok (value, year)) => Ok (Some value, Some year)
                | Some (Fail e) => Fail e
                | None => first_available data
                end
              else first_available data
          | None => first_available data
          end
      | _ => Ok (None, None)
      end
  | _ => Ok (None, None)
  end.

End Conversions.

End Payload.

(** * Vocabulary of the further properties *)

(** ** Floats and the order of the sort *)

(** A float that is a number. *)
Definition not_nan (x : float) : Prop := Prim2SF x <> S754_nan.

(** Numbers in the order of [<]: sign class, then exponent, then mantissa. *)
Definition order_key (x : spec_float) : Z * Z * Z :=
  match x with
  | S754_infinity true => (-2, 0, 0)%Z
  | S754_finite true m e => (-1, - e, - Z.pos m)%Z
  | S754_zero _ => (0, 0, 0)%Z
  | S754_nan => (0, 0, 0)%Z
  | S754_finite false m e => (1, e, Z.pos m)%Z
  | S754_infinity false => (2, 0, 0)%Z
  end.

Definition key_lt (a b : Z * Z * Z) : Prop :=
  (a.1.1 < b.1.1
   \/ (a.1.1 = b.1.1 /\ (a.1.2 < b.1.2 \/ (a.1.2 = b.1.2 /\ a.2 < b.2))))%Z.

(** [a] does not come below [b]. *)
Definition not_below {A} (a b : float * A) : Prop := (a.1 <? b.1)%float = false.

(** The keys of [x] and [k] tie: neither is below the other. *)
Definition tied {A} (k : float) (x : float * A) : Prop :=
  (x.1 <? k)%float = false /\ (k <? x.1)%float = false.

#[global] Instance tied_dec {A} (k : float) (x : float * A) : Decision (tied k x).
Proof. unfold tied. apply _. Defined.

(** The score attached to the dictionary behind [l], if any. *)
Definition score_at (h : heap) (l : loc) : option float := h !! l ≫= c_score.

(** Both dictionaries carry a score and the first does not score below the
    second. *)
Definition scores_not_below (h : heap) (l1 l2 : loc) : Prop :=
  exists v1 v2,
    score_at h l1 = Some v1 /\ score_at h l2 = Some v2 /\ (v1 <? v2)%float = false.

(** The dictionary behind [l] carries a score that ties with [k]. *)
Definition score_ties (h : heap) (k : float) (l : loc) : Prop :=
  Is_true (from_option (fun v => negb (v <? k)%float && negb (k <? v)%float) false
             (score_at h l)).

#[global] Instance score_ties_dec h k l : Decision (score_ties h k l).
Proof. unfold score_ties. apply _. Defined.

(** The semantic scores behind the references are numbers. *)
Definition semantic_numbers (h : heap) (ls : list loc) : Prop :=
  Forall (fun l => forall c, h !! l = Some c -> not_nan (c_semantic c)) ls.

(** ** The table of indicators *)

(** The last row of the table with the id [k]. *)
Definition last_row (ind_df : list Row) (k : string) : option Row :=
  last (filter (fun row => row_id row = k) ind_df).

(** ** Strings and queries *)

(** A string that [strip] leaves alone and that is not empty. *)
Definition solid (x : string) : Prop := x <> "" /\ lstrip x = x /\ rstrip x = x.

(** The words one qualifier adds to the query. *)
Definition qualifier_words (qualifier : string) : list string := qualifier_bits [] qualifier.

(** Two slot records that differ at most in how the qualifier set is
    stored. *)
Definition same_but_qualifiers (s1 s2 : Slots) : Prop :=
  concept s1 = concept s2 /\ sex s1 = sex s2 /\ age_band s1 = age_band s2 /\
  forall q, q ∈ unit_qualifiers s1 <-> q ∈ unit_qualifiers s2.

(** ** The parser *)

Definition male_words : list string := ["male"; "males"; "men"; "man"; "boys"].

Definition female_words : list string := ["female"; "females"; "women"; "woman"; "girls"].

Definition qualifier_names : list string :=
  ["per_capita"; "ppp"; "constant_usd"; "current_usd"; "growth_rate"; "percent_share";
   "count_number"].

(** ** The client *)

(** The attempt with this reply fails and leaves [last_error]. *)
Definition fails_with (reply : ApiClient.res ApiClient.Response) (last_error : string)
  : Prop :=
  ApiClient.attempt_once reply = inl last_error.

(** The wait after the failed attempt [i]: [0.5 * 2 ** i] seconds. *)
Definition wait_seconds (i : nat) : float :=
  (0.5 * SF2Prim (binary_normalize prec emax (2 ^ Z.of_nat i) 0 false))%float.

(** The calls after [k] failed attempts, each followed by its wait. *)
Definition after_failures (c : ApiClient.Calls) (k : nat) : ApiClient.Calls :=
  {| ApiClient.requests := ApiClient.requests c + k;
     ApiClient.slept := ApiClient.slept c ++ map wait_seconds (List.seq 0 k) |}.

(** A row with the year [y] and a value that [float] converts to [value]. *)
Definition exact_row (float_of_str : string -> option float) (y : Z) (value : float)
    (row : ApiClient.json) : Prop :=
  exists items,
    row = ApiClient.JDict items
    /\ Payload.py_int (Payload.item items "date") = ApiClient.Ok y
    /\ Payload.is_none (Payload.item items "value") = false
    /\ Payload.py_float float_of_str (Payload.item items "value") = ApiClient.Ok value.

(** A row without a value. *)
Definition no_value (row : ApiClient.json) : Prop :=
  exists items,
    row = ApiClient.JDict items /\ Payload.is_none (Payload.item items "value") = true.

(** ** Further worked inputs *)

Definition unemployment_question : string := "What is the unemployment rate in France?".

Definition unemployment_answer : Prediction :=
  mkPrediction "France" "unemployment" "none" "percent" "none".

Definition population_question : string := "What is the total population of Japan in 2020?".

Definition population_answer : Prediction :=
  mkPrediction "Japan" "population" "2020" "none" "none".

Definition female_population_slots : Slots :=
  mkSlots "Japan" "single" (Some 2020%Z) None None None "population" [] "female" "none"
    "DSPy+Ollama".

Definition gdp_ppp_slots_reordered : Slots :=
  mkSlots "Japan" "single" (Some 2020%Z) None None None "gdp" ["ppp"; "ppp"] "total" "none"
    "DSPy+Ollama".

Definition female_population_row : Row :=
  mkRow "SP.POP.TOTL.FE.IN" "Population, female" None None None None.

(** A server that times out, then answers 503, then answers. *)
Definition flaky_world : ApiClient.World :=
  {| ApiClient.get := fun _ n =>
       match n with
       | O => ApiClient.Fail ApiClient.Timeout
       | S O => ApiClient.Ok (ApiClient.mkResponse 503 (ApiClient.Fail ApiClient.ValueError))
       | _ => ApiClient.Ok (ApiClient.mkResponse 200 (ApiClient.Ok (ApiClient.JList [])))
       end;
     ApiClient.sleep := fun _ => None |}.

(** A server that always answers 500. *)
Definition down_world : ApiClient.World :=
  {| ApiClient.get := fun _ _ =>
       ApiClient.Ok (ApiClient.mkResponse 500 (ApiClient.Fail ApiClient.ValueError));
     ApiClient.sleep := fun _ => None |}.

Definition failure_texts (i : nat) : string :=
  match i with O => "Request timeout" | _ => "HTTP 503" end.

(** The client with the default arguments. *)
Definition default_client : ApiClient.WorldBankClient := ApiClient.mkClient 10 2.

Definition no_calls : ApiClient.Calls := ApiClient.mkCalls 0 [].

Definition sample_url : string :=
  ApiClient.build_url "JPN" "NY.GDP.MKTP.CD" "date=2020".

Definition sample_rows : list ApiClient.json :=
  [ApiClient.JDict [("date", ApiClient.JStr "2021"); ("value", ApiClient.JNull)];
   ApiClient.JDict [("date", ApiClient.JStr "2020"); ("value", ApiClient.JFloat 5)];
   ApiClient.JDict [("date", ApiClient.JStr "2019"); ("value", ApiClient.JInt 4)]].

Definition sample_meta : ApiClient.json := ApiClient.JDict [("page", ApiClient.JInt 1)].

Definition empty_rows : list ApiClient.json :=
  [ApiClient.JDict [("date", ApiClient.JStr "2021"); ("value", ApiClient.JNull)]].

(** A [float] that rejects every string. *)
Definition no_float_of_str (s : string) : option float := None.

(** * Properties *)

(** ** Floats *)

Lemma ltb_leb (a b : float) : (a <? b)%float = true -> (a <=? b)%float = true.
Proof.
  rewrite FloatAxioms.ltb_spec, FloatAxioms.leb_spec. unfold SFltb, SFleb.
  destruct (SFcompare (Prim2SF a) (Prim2SF b)) as [[]|]; congruence.
Qed.

Lemma max_zero_nonneg (x : float) : (0 <=? PyFloat.max 0 x)%float = true.
Proof.
  unfold PyFloat.max. destruct (0 <? x)%float eqn:E.
  - by apply ltb_leb.
  - reflexivity.
Qed.

Lemma sub_zero_ltb (x : float) : (0 <? x - 0)%float = (0 <? x)%float.
Proof.
  rewrite !FloatAxioms.ltb_spec, FloatAxioms.sub_spec.
  change (Prim2SF 0) with (S754_zero false). unfold SF64sub.
  by destruct (Prim2SF x) as [[]|[]| |[] m e].
Qed.

Lemma max_zero_eqb (x : float) :
  (PyFloat.max 0 x =? 0)%float = true <-> (0 <? x)%float = false.
Proof.
  unfold PyFloat.max. destruct (0 <? x)%float eqn:E; [|done].
  split; [|discriminate]. intros Hx. revert E Hx.
  rewrite FloatAxioms.ltb_spec, FloatAxioms.eqb_spec.
  change (Prim2SF 0) with (S754_zero false). unfold SFltb, SFeqb.
  by destruct (Prim2SF x) as [[]|[]| |[] m e].
Qed.

(** ** Sums that are never the negative zero *)

Section NegativeZero.

Local Open Scope Z_scope.

Lemma digits_shr_1 (s : shr_record) :
  0 <= shr_m s ->
  0 <= shr_m (shr_1 s)
  /\ Zdigits2 (shr_m (shr_1 s)) = Z.max 0 (Zdigits2 (shr_m s) - 1).
Proof.
  destruct s as [m r t]. simpl. intros Hm.
  destruct m as [|p|p]; [simpl; lia | | lia].
  destruct p; simpl; lia.
Qed.

Lemma digits_shr_iter (p : positive) (s : shr_record) :
  0 <= shr_m s ->
  0 <= shr_m (SpecFloat.iter_pos shr_1 p s)
  /\ Zdigits2 (shr_m (SpecFloat.iter_pos shr_1 p s)) = Z.max 0 (Zdigits2 (shr_m s) - Z.pos p).
Proof.
  revert s. induction p as [p IH|p IH|]; intros s Hs; simpl.
  - destruct (digits_shr_1 s Hs) as [H1 E1].
    destruct (IH _ H1) as [H2 E2]. destruct (IH _ H2) as [H3 E3].
    split; [done|]. rewrite E3, E2, E1. lia.
  - destruct (IH _ Hs) as [H2 E2]. destruct (IH _ H2) as [H3 E3].
    split; [done|]. rewrite E3, E2. lia.
  - apply digits_shr_1, Hs.
Qed.

Lemma digits_pos (m : Z) : 0 < m -> 0 < Zdigits2 m.
Proof. destruct m; simpl; lia. Qed.

Lemma digits_zero (m : Z) : 0 <= m -> 0 < Zdigits2 m -> 0 < m.
Proof. destruct m; simpl; lia. Qed.

Lemma shr_record_of_loc_m (m : Z) (l : location) : shr_m (shr_record_of_loc m l) = m.
Proof. by destruct l as [|[]]. Qed.

(** Shifting a positive mantissa to its canonical exponent leaves it
    positive when the exponent is at least [emin]. *)
Lemma shr_fexp_pos (m e : Z) (l : location) :
  0 < m -> emin <= e ->
  0 < shr_m (shr_fexp prec emax m e l).1 /\ emin <= (shr_fexp prec emax m e l).2.
Proof.
  intros Hm He. unfold shr_fexp, shr.
  pose proof (digits_pos m Hm) as Hd.
  destruct (fexp prec emax (Zdigits2 m + e) - e) as [|p|p] eqn:En; simpl;
    rewrite ?shr_record_of_loc_m; try done.
  destruct (digits_shr_iter p (shr_record_of_loc m l)) as [H0 E];
    [rewrite shr_record_of_loc_m; lia|].
  rewrite shr_record_of_loc_m in E. split; [|lia].
  apply digits_zero; [done|]. rewrite E.
  unfold fexp, SpecFloat.emin, prec, emax in *. lia.
Qed.

Lemma round_nearest_even_pos (m : Z) (l : location) :
  0 < m -> 0 < round_nearest_even m l.
Proof.
  intros Hm. destruct l as [|[]]; simpl; try lia. destruct (Z.even m); lia.
Qed.

Lemma binary_round_aux_not_zero (sx s : bool) (m e : Z) (l : location) :
  0 < m -> emin <= e ->
  binary_round_aux prec emax sx m e l <> S754_zero s.
Proof.
  intros Hm He. unfold binary_round_aux.
  destruct (shr_fexp_pos m e l Hm He) as [H1 E1].
  destruct (shr_fexp prec emax m e l) as [mrs' e']. simpl in H1, E1.
  pose proof (round_nearest_even_pos _ (loc_of_shr_record mrs') H1) as H2.
  destruct (shr_fexp_pos _ e' loc_Exact H2 E1) as [H3 _].
  destruct (shr_fexp prec emax _ e' loc_Exact) as [mrs'' e'']. simpl in H3.
  destruct (shr_m mrs''); [lia | | lia].
  by destruct (e'' <=? emax - prec).
Qed.

Lemma binary_round_not_zero (sx s : bool) (m : positive) (e : Z) :
  emin <= e -> binary_round prec emax sx m e <> S754_zero s.
Proof.
  intros He. unfold binary_round.
  destruct (shl_align m e _) as [mz ez] eqn:Ea.
  apply binary_round_aux_not_zero; [lia|].
  unfold shl_align in Ea.
  destruct (fexp prec emax (Z.pos (digits2_pos m) + e) - e) eqn:En;
    injection Ea as <- <-; try done.
  unfold fexp, SpecFloat.emin, prec, emax. lia.
Qed.

Lemma binary_normalize_not_neg_zero (m e : Z) :
  emin <= e -> binary_normalize prec emax m e false <> S754_zero true.
Proof.
  intros He. destruct m; simpl; [done| |]; by apply binary_round_not_zero.
Qed.

Lemma valid_exponent (s : bool) (m : positive) (e : Z) :
  valid_binary (S754_finite s m e) = true -> emin <= e.
Proof.
  simpl. unfold bounded, canonical_mantissa, fexp, SpecFloat.emin, prec, emax.
  intros [Hc _]%andb_prop. apply Z.eqb_eq in Hc. lia.
Qed.

Lemma add_not_neg_zero (x d : float) :
  adds_no_neg_zero d -> Prim2SF (x + d)%float <> S754_zero true.
Proof.
  unfold adds_no_neg_zero. intros Hd. rewrite add_spec.
  pose proof (Prim2SF_valid x) as Hx. pose proof (Prim2SF_valid d) as Hvd.
  destruct (Prim2SF d) as [sd|sd| |sd md ed]; try done; subst sd.
  - destruct (Prim2SF x) as [[]|[]| |]; simpl; congruence.
  - destruct (Prim2SF x) as [sx|sx| |sx mx ex]; try (simpl; congruence).
    apply valid_exponent in Hx, Hvd. unfold SF64add, SFadd.
    apply binary_normalize_not_neg_zero. lia.
Qed.

Lemma add_zero_id (x : float) :
  Prim2SF x <> S754_zero true -> (x + 0)%float = x.
Proof.
  intros Hx. apply Prim2SF_inj. rewrite add_spec.
  destruct (Prim2SF x) as [[]|[]| |]; try reflexivity. congruence.
Qed.

End NegativeZero.

(** ** Predicates on indicator ids *)

Lemma has_sex_total (ind_id : string) :
  has_sex ind_id "total" = negb (contains ".FE." ind_id || contains ".MA." ind_id).
Proof. reflexivity. Qed.

(** C3.  The female branch of [has_sex] takes a trailing [.FE] for a sex
    marker, the total branch looks for [.FE.] and [.MA.] only: the id
    [SE.PRM.ENRR.FE] is female and satisfies a total request as well. *)
Theorem has_sex_total_accepts_sex_suffix :
  has_sex "SE.PRM.ENRR.FE" "female" = true
  /\ has_sex "SE.PRM.ENRR.FE" "total" = true
  /\ has_sex "SE.PRM.ENRR.MA" "male" = true
  /\ has_sex "SE.PRM.ENRR.MA" "total" = true.
Proof. repeat split; vm_compute; reflexivity. Qed.

(** ** The slot normaliser *)

Lemma isdigit_truthy (s : string) : isdigit s = true -> truthy s = true.
Proof. by destruct s. Qed.

Lemma time_slots_outcome (year_str q : string) :
  match time_slots year_str q with
  | Return _ => ~ bad_year year_str
  | Raise e => e = invalid_literal year_str /\ bad_year year_str
  end.
Proof.
  unfold time_slots, bad_year.
  destruct (isdigit year_str) eqn:Hd.
  - rewrite (isdigit_truthy _ Hd). simpl.
    destruct (int year_str); [intros [_ ?]; discriminate | auto].
  - rewrite andb_false_r.
    destruct (contains "latest" q || contains "most recent" q);
      intros [? _]; discriminate.
Qed.

Lemma elem_of_add_count_number (x : string) (l : list string) :
  x ∈ add_count_number l <-> x ∈ l \/ x = "count_number".
Proof.
  unfold add_count_number. case_bool_decide; simpl.
  - intuition congruence.
  - list_mem.
Qed.

Lemma sex_slots_qualifiers (concept q demographics : string) (uq : list string) (x : string) :
  x <> "count_number" ->
  x ∈ snd (sex_slots concept q demographics uq) <-> x ∈ uq.
Proof.
  intros Hx. unfold sex_slots. split_ifs;
    rewrite ?elem_of_add_count_number; tauto.
Qed.

Lemma unit_slots_growth (unit q : string) :
  has_growth q = true ->
  "growth_rate" ∈ unit_slots unit q
  /\ ("constant_usd" ∉ unit_slots unit q) /\ ("current_usd" ∉ unit_slots unit q).
Proof.
  intros Hg. unfold unit_slots. rewrite Hg. simpl. split_ifs; list_mem.
Qed.

Lemma unit_slots_no_growth (unit q : string) :
  has_growth q = false -> "growth_rate" ∉ unit_slots unit q.
Proof.
  intros Hg. unfold unit_slots. rewrite Hg. simpl. split_ifs; list_mem.
Qed.

Lemma parse_outcome (result : Prediction) (question : string) :
  let q := lower question in
  let year_str := strip (out_year result) in
  let concept' := normalized_concept (strip (out_concept result)) q in
  let unit := lower (default "" (unless_none (out_unit result))) in
  let demographics := lower (default "" (unless_none (out_demographics result))) in
  match _parse_with_dspy result question with
  | Return slots =>
      ~ bad_year year_str
      /\ concept slots = normalized_concept (strip (out_concept result)) q
      /\ sex slots = fst (sex_slots concept' q demographics (unit_slots unit q))
      /\ unit_qualifiers slots = snd (sex_slots concept' q demographics (unit_slots unit q))
      /\ age_band slots = age_slot demographics
  | Raise e => e = invalid_literal year_str /\ bad_year year_str
  end.
Proof.
  intros q year_str concept' unit demographics. unfold _parse_with_dspy.
  fold q year_str concept' unit demographics.
  pose proof (time_slots_outcome year_str q) as Ht.
  destruct (time_slots year_str q) as [[[tm y] ln]|e]; [|exact Ht].
  destruct (sex_slots concept' q demographics (unit_slots unit q)) as [sx uq] eqn:E.
  simpl. auto.
Qed.

(** C5.  The qualifiers the slot normaliser returns never hold
    [growth_rate] together with [constant_usd] or [current_usd]: when
    [has_growth] holds, [growth_rate] is added and the two currency bases
    are skipped.  The normaliser returns on every input but a year text
    that [int] rejects. *)
Theorem growth_excludes_currency_basis (result : Prediction) (question : string) :
  match _parse_with_dspy result question with
  | Return slots =>
      (has_growth (lower question) = true ->
       "growth_rate" ∈ unit_qualifiers slots
       /\ ("constant_usd" ∉ unit_qualifiers slots)
       /\ ("current_usd" ∉ unit_qualifiers slots))
      /\ ~ ("growth_rate" ∈ unit_qualifiers slots
            /\ ("constant_usd" ∈ unit_qualifiers slots
                \/ "current_usd" ∈ unit_qualifiers slots))
  | Raise e =>
      e = invalid_literal (strip (out_year result))
      /\ bad_year (strip (out_year result))
  end.
Proof.
  pose proof (parse_outcome result question) as Hp. simpl in Hp.
  destruct (_parse_with_dspy result question) as [slots|e]; [|exact Hp].
  destruct Hp as (_ & _ & _ & Huq & _). rewrite Huq.
  rewrite !sex_slots_qualifiers by discriminate.
  destruct (has_growth (lower question)) eqn:Hg.
  - destruct (unit_slots_growth
                (lower (default "" (unless_none (out_unit result))))
                (lower question) Hg) as (? & ? & ?).
    split; [auto | tauto].
  - split; [discriminate |].
    intros [Hin _]. by apply unit_slots_no_growth in Hin.
Qed.

Lemma sex_slots_not_demographic (concept q demographics : string) (uq : list string) :
  is_demographic_concept concept = false ->
  fst (sex_slots concept q demographics uq) = "total".
Proof.
  intros Hd. unfold sex_slots. rewrite Hd. simpl. by split_ifs.
Qed.

(** C8, as stated, fails: for a concept that is not demographic the age
    text of the demographics field is not ignored, it still sets
    [age_band]. *)
Lemma age_text_not_ignored :
  is_demographic_concept
    (normalized_concept (strip (out_concept gdp_with_age)) (lower gdp_question)) = false
  /\ _parse_with_dspy gdp_plain gdp_question
     <> _parse_with_dspy gdp_with_age gdp_question
  /\ (age_band <$> (match _parse_with_dspy gdp_with_age gdp_question with
                    | Return slots => Some slots
                    | Raise _ => None
                    end)) = Some "65up".
Proof.
  split; [vm_compute; reflexivity|]. split; [|vm_compute; reflexivity].
  intros Heq. vm_compute in Heq. discriminate Heq.
Qed.

(** C8, amended.  When the normalised concept holds none of ["population"],
    ["unemployment"], ["life_expectancy"], the normaliser returns
    [sex = "total"] whatever gender text the question or the demographics
    field holds; the age band is still the one the demographics text
    gives. *)
Theorem sex_total_when_not_demographic (result : Prediction) (question : string) :
  is_demographic_concept
    (normalized_concept (strip (out_concept result)) (lower question)) = false ->
  match _parse_with_dspy result question with
  | Return slots =>
      sex slots = "total"
      /\ age_band slots
         = age_slot (lower (default "" (unless_none (out_demographics result))))
  | Raise e =>
      e = invalid_literal (strip (out_year result))
      /\ bad_year (strip (out_year result))
  end.
Proof.
  intros Hd. pose proof (parse_outcome result question) as Hp. simpl in Hp.
  destruct (_parse_with_dspy result question) as [slots|e]; [|exact Hp].
  destruct Hp as (_ & _ & Hsex & _ & Hage).
  rewrite Hsex, Hage. split; [|reflexivity].
  by apply sex_slots_not_demographic.
Qed.

(** The amended C8 on a GDP question that names women and an age range. *)
Lemma sex_total_when_not_demographic_witness :
  match _parse_with_dspy gdp_with_age "What is the GDP for women in Japan?" with
  | Return slots =>
      sex slots = "total"
      /\ age_band slots
         = age_slot (lower (default "" (unless_none (out_demographics gdp_with_age))))
  | Raise e =>
      e = invalid_literal (strip (out_year gdp_with_age))
      /\ bad_year (strip (out_year gdp_with_age))
  end.
Proof.
  apply (sex_total_when_not_demographic gdp_with_age "What is the GDP for women in Japan?").
  vm_compute. reflexivity.
Defined.

(** ** The query term builder *)

Lemma truthy_false (s : string) : truthy s = false -> s = "".
Proof. by destruct s. Qed.

Lemma lstrip_head (s : string) (a : ascii) (r : string) :
  lstrip s = String a r -> isspace a = false.
Proof.
  induction s as [|c s IH]; simpl; [discriminate|].
  destruct (isspace c) eqn:Hc; [exact IH|]. intros [= <- _]. exact Hc.
Qed.

Lemma rstrip_head (s : string) (a : ascii) (r : string) :
  rstrip s = String a r -> exists r', s = String a r'.
Proof.
  destruct s as [|c s]; simpl; [discriminate|].
  destruct (rstrip s); [destruct (isspace c)|]; intros [= <- _]; eauto.
Qed.

Lemma rstrip_nonspace_head (a : ascii) (s : string) :
  isspace a = false -> rstrip (String a s) <> "".
Proof. intros Ha. simpl. destruct (rstrip s); [rewrite Ha|]; discriminate. Qed.

(** A stripped string is empty or starts with a character that is no space. *)
Lemma strip_head (s : string) (a : ascii) (r : string) :
  strip s = String a r -> isspace a = false.
Proof.
  unfold strip. intros Hs. destruct (rstrip_head _ _ _ Hs) as [r' Hr'].
  by apply lstrip_head in Hr'.
Qed.

Lemma strip_nonspace_head (a : ascii) (s : string) :
  isspace a = false -> strip (String a s) <> "".
Proof.
  intros Ha. unfold strip. simpl. rewrite Ha. by apply rstrip_nonspace_head.
Qed.

Lemma join_head (sep : string) (a : ascii) (r : string) (rest : list string) :
  exists r', join sep (String a r :: rest) = String a r'.
Proof. destruct rest; simpl; eauto. Qed.

Lemma foldl_qualifier_bits_head (b : string) (bits qs : list string) :
  foldl qualifier_bits (b :: bits) qs = b :: foldl qualifier_bits bits qs.
Proof.
  revert bits. induction qs as [|q qs IH]; intros bits; simpl; [done|].
  unfold qualifier_bits at 2 4.
  repeat match goal with
         | |- context [if ?c then _ else _] => destruct c
         end; apply IH.
Qed.

Section QueryTermsFacts.

Context `{SetOrder}.

(** When the cleaned concept is kept, it is the first of the bits. *)
Lemma query_bits_head (slots : Slots) :
  truthy (cleaned_concept slots) && negb (String.eqb (cleaned_concept slots) "unknown") = true ->
  exists rest, query_bits slots = cleaned_concept slots :: rest.
Proof.
  intros Hc. unfold query_bits. rewrite Hc. simpl.
  rewrite foldl_qualifier_bits_head.
  repeat match goal with
         | |- context [if ?c then _ else _] => destruct c
         end; simpl; eauto.
Qed.

Lemma empty_query_concept (slots : Slots) :
  strip (join " " (query_bits slots)) = "" ->
  cleaned_concept slots = "" \/ cleaned_concept slots = "unknown".
Proof.
  intros Hq.
  destruct (truthy (cleaned_concept slots)) eqn:Ht;
    [|left; by apply truthy_false].
  destruct (String.eqb (cleaned_concept slots) "unknown") eqn:Hu;
    [right; by apply String.eqb_eq|].
  exfalso.
  destruct (query_bits_head slots) as [rest Hb]; [by rewrite Ht, Hu|].
  rewrite Hb in Hq.
  destruct (cleaned_concept slots) as [|a r] eqn:Hc; [discriminate|].
  pose proof (strip_head _ _ _ Hc) as Ha.
  destruct (join_head " " a r rest) as [r' Hj]. rewrite Hj in Hq.
  by apply (strip_nonspace_head a r').
Qed.

(** C2, amended.  When the emitted tokens join to the empty string,
    [build_query_terms] falls back to the cleaned concept string, which is
    then empty or ["unknown"]. *)
Theorem empty_query_falls_back_to_cleaned_concept (slots : Slots) :
  strip (join " " (query_bits slots)) = "" ->
  build_query_terms slots = cleaned_concept slots
  /\ (cleaned_concept slots = "" \/ cleaned_concept slots = "unknown").
Proof.
  intros Hq. split; [|by apply empty_query_concept].
  unfold build_query_terms. by rewrite Hq.
Qed.

End QueryTermsFacts.

(** C2, as stated, fails: for the raw concept ["female"] the tokens join to
    the empty string and the builder returns the empty cleaned concept, not
    the raw one. *)
Lemma fallback_is_not_raw_concept :
  ~ (forall slots : Slots,
       strip (join " " (@query_bits insertion_order slots)) = "" ->
       @build_query_terms insertion_order slots = concept slots).
Proof.
  intros Hall. specialize (Hall female_slots).
  vm_compute in Hall. specialize (Hall eq_refl). discriminate Hall.
Qed.

(** The amended C2 on the raw concept ["female"]. *)
Lemma empty_query_falls_back_to_cleaned_concept_witness :
  @build_query_terms insertion_order female_slots = cleaned_concept female_slots
  /\ (cleaned_concept female_slots = "" \/ cleaned_concept female_slots = "unknown").
Proof.
  apply (@empty_query_falls_back_to_cleaned_concept insertion_order female_slots).
  vm_compute. reflexivity.
Defined.

(** ** The heap *)

Lemma reads_live h ls cs : reads h ls cs -> live h ls.
Proof. induction 1; constructor; eauto. Qed.

Lemma live_reads h ls : live h ls -> exists cs, reads h ls cs.
Proof.
  induction 1 as [|l ls [c Hc] _ [cs IH]].
  - exists []. constructor.
  - exists (c :: cs). by constructor.
Qed.

Lemma holds_lookup p h l c : h !! l = Some c -> holds p h l <-> p c = true.
Proof. intros Hl. unfold holds. rewrite Hl. simpl. apply Is_true_true. Qed.

Lemma reads_filter p h ls cs :
  reads h ls cs ->
  reads h (filter (holds p h) ls) (filter (fun c => Is_true (p c)) cs).
Proof.
  induction 1 as [|l c ls cs Hl _ IH]; [constructor|].
  destruct (p c) eqn:Hp.
  - rewrite (filter_cons_True (holds p h)) by (by apply (holds_lookup p h l c Hl)).
    rewrite (filter_cons_True (fun c => Is_true (p c))) by (by rewrite Hp).
    by constructor.
  - rewrite (filter_cons_False (holds p h))
      by (rewrite (holds_lookup p h l c Hl); congruence).
    rewrite (filter_cons_False (fun c => Is_true (p c))) by (rewrite Hp; tauto).
    exact IH.
Qed.

(** ** The constraint filter *)

Lemma constraints_loop_run uq sex age h ls :
  live h ls ->
  constraints_loop uq sex age ls h
  = (Return (filter (holds (passes uq sex age) h) ls), h).
Proof.
  induction 1 as [|l ls [c Hc] _ IH]; [reflexivity|].
  simpl. unfold bind, load. rewrite Hc. fold (constraints_loop uq sex age ls).
  rewrite IH. unfold ret. destruct (passes uq sex age c) eqn:Hp.
  - rewrite filter_cons_True; [done|]. by apply (holds_lookup _ h l c Hc).
  - rewrite filter_cons_False; [done|].
    rewrite (holds_lookup _ h l c Hc). congruence.
Qed.

Lemma passes_accepted (slots : Slots) (cand : Candidate) :
  passes (unit_qualifiers slots) (sex slots) (age_band slots) cand
  = accepted slots cand.
Proof.
  unfold passes, accepted, rejected.
  destruct (in_set "ppp" _), (is_ppp _ _), (in_set "growth_rate" _),
    (is_growth _ _), (in_set "percent_share" _), (is_percent _ _ _),
    (contains "rate" _), (has_sex _ _), (has_age _ _); reflexivity.
Qed.

Lemma filter_holds_ext (p p' : Candidate -> bool) (h : heap) (ls : list loc) :
  (forall c, p c = p' c) -> filter (holds p h) ls = filter (holds p' h) ls.
Proof.
  intros Hp. apply list_filter_iff. intros l. unfold holds.
  destruct (h !! l); simpl; [by rewrite Hp | done].
Qed.

Lemma apply_constraints_run (h : heap) (candidates : list loc) (slots : Slots) :
  live h candidates ->
  _apply_constraints candidates slots h
  = (Return (filter (holds (accepted slots) h) candidates), h).
Proof.
  intros Hl. unfold _apply_constraints. rewrite constraints_loop_run by done.
  f_equal. f_equal. apply filter_holds_ext, passes_accepted.
Qed.

(** C7.  The constraint filter returns, unchanged in order, the candidates
    the rejection rule does not reject, and leaves the heap as it was; the
    outcome depends on the qualifiers only through [ppp], [growth_rate]
    and [percent_share], so [per_capita], [constant_usd], [current_usd]
    and [count_number] never reject. *)
Theorem apply_constraints_filters (h : heap) (candidates : list loc) (slots : Slots) :
  live h candidates ->
  _apply_constraints candidates slots h
  = (Return (filter (holds (accepted slots) h) candidates), h)
  /\ sublist (filter (holds (accepted slots) h) candidates) candidates
  /\ (forall slots' : Slots,
        sex slots' = sex slots ->
        age_band slots' = age_band slots ->
        (forall q, q ∈ ["ppp"; "growth_rate"; "percent_share"] ->
                   in_set q (unit_qualifiers slots') = in_set q (unit_qualifiers slots)) ->
        _apply_constraints candidates slots' h = _apply_constraints candidates slots h).
Proof.
  intros Hl. split; [by apply apply_constraints_run|].
  split; [apply sublist_filter; apply _|].
  intros slots' Hsex Hage Hq. rewrite !apply_constraints_run by done.
  f_equal. f_equal. apply filter_holds_ext. intros c.
  unfold accepted, rejected. rewrite Hsex, Hage.
  rewrite !Hq by (rewrite !elem_of_cons; tauto). reflexivity.
Qed.

(** ** The scorer *)

Lemma rescored_idem (slots : Slots) (cand : Candidate) :
  rescored slots (rescored slots cand) = rescored slots cand.
Proof. reflexivity. Qed.

Lemma live_insert (h : heap) (l : loc) (c : Candidate) (ls : list loc) :
  live h ls -> live (<[l := c]> h) ls.
Proof.
  unfold live. intros Hl. eapply Forall_impl; [exact Hl|]. intros l' Hl'.
  rewrite lookup_insert_is_Some. destruct (decide (l = l')); auto.
Qed.

(** The heap after the scoring loop: the dictionaries of the list carry
    their score, every other dictionary is untouched. *)
Lemma score_loop_run (slots : Slots) (ls : list loc) (h : heap) :
  live h ls ->
  exists h',
    score_loop slots ls h = (Return tt, h')
    /\ forall l, h' !! l = if decide (l ∈ ls) then rescored slots <$> h !! l
                           else h !! l.
Proof.
  revert h. induction ls as [|l0 ls IH]; intros h Hlive.
  - exists h. split; [reflexivity|]. intros l.
    rewrite decide_False by apply not_elem_of_nil. reflexivity.
  - apply Forall_cons in Hlive as [[c Hc] Hlive].
    destruct (IH (<[l0 := rescored slots c]> h)) as (h' & Hrun & Hh');
      [by apply live_insert|].
    exists h'. split.
    + simpl. unfold bind, load, store. rewrite Hc. exact Hrun.
    + intros l. rewrite Hh'. destruct (decide (l = l0)) as [->|Hne].
      * rewrite lookup_insert_eq, Hc.
        rewrite (decide_True (P := l0 ∈ l0 :: ls)) by apply list_elem_of_here.
        by destruct (decide (l0 ∈ ls)).
      * rewrite lookup_insert_ne by done.
        destruct (decide (l ∈ ls)) as [Hin|Hnin].
        -- by rewrite decide_True by (by apply list_elem_of_further).
        -- rewrite decide_False; [done|]. rewrite elem_of_cons. tauto.
Qed.

Lemma decorate_run (ls : list loc) (h : heap) :
  Forall (scored_in h) ls ->
  decorate ls h = (Return (map (fun l => (key_of h l, l)) ls), h).
Proof.
  induction 1 as [|l ls (c & v & Hc & Hv) _ IH]; [reflexivity|].
  simpl. unfold bind at 1. unfold get_score, bind at 1, load. rewrite Hc, Hv.
  unfold ret at 1. unfold bind. rewrite IH. unfold ret, key_of.
  by rewrite Hc; simpl; rewrite Hv.
Qed.

Lemma insert_desc_Permutation {A} (x : float * A) (l : list (float * A)) :
  insert_desc x l ≡ₚ x :: l.
Proof.
  induction l as [|y l IH]; simpl; [done|].
  destruct (x.1 <? y.1)%float; [|done].
  rewrite IH. apply Permutation_swap.
Qed.

Lemma sort_desc_Permutation {A} (l : list (float * A)) : sort_desc l ≡ₚ l.
Proof.
  induction l as [|x l IH]; simpl; [done|].
  by rewrite insert_desc_Permutation, IH.
Qed.

Lemma map_snd_keyed {A} (f : A -> float) (l : list A) :
  (map (fun a => (f a, a)) l).*2 = l.
Proof. induction l as [|a l IH]; [done|]. csimpl. by rewrite IH. Qed.

Lemma score_candidates_run (ls : list loc) (slots : Slots) (h : heap) :
  live h ls ->
  exists h',
    _score_candidates ls slots h
    = (Return ((sort_desc (map (fun l => (key_of h' l, l)) ls)).*2), h')
    /\ forall l, h' !! l = if decide (l ∈ ls) then rescored slots <$> h !! l
                           else h !! l.
Proof.
  intros Hlive. destruct (score_loop_run slots ls h Hlive) as (h' & Hrun & Hh').
  exists h'. split; [|exact Hh'].
  unfold _score_candidates, bind. rewrite Hrun.
  rewrite decorate_run; [reflexivity|].
  apply Forall_forall. intros l Hin.
  destruct (proj1 (Forall_forall _ _) Hlive l Hin) as [c Hc].
  exists (rescored slots c), (combined_score slots c).
  rewrite Hh', decide_True, Hc by done. done.
Qed.

(** C10.  The scorer returns the references it was given, reordered, and
    changes the heap only by attaching ["score"] to the dictionaries of the
    list: their [id], [name], [unit], [topics], [sourceNote], [source] and
    [semantic] keep their values, and every other dictionary is as before. *)
Theorem scoring_only_attaches_score (h : heap) (candidates : list loc) (slots : Slots) :
  live h candidates ->
  exists scored h',
    _score_candidates candidates slots h = (Return scored, h')
    /\ scored ≡ₚ candidates
    /\ forall l,
         match h !! l, h' !! l with
         | Some c, Some c' =>
             c_id c' = c_id c /\ c_name c' = c_name c /\ c_unit c' = c_unit c
             /\ c_topics c' = c_topics c /\ c_sourceNote c' = c_sourceNote c
             /\ c_source c' = c_source c /\ c_semantic c' = c_semantic c
             /\ (l ∈ candidates -> c_score c' = Some (combined_score slots c))
             /\ (l ∉ candidates -> c' = c)
         | None, None => True
         | _, _ => False
         end.
Proof.
  intros Hlive.
  destruct (score_candidates_run candidates slots h Hlive) as (h' & Hrun & Hh').
  eexists _, h'. split; [exact Hrun|]. split.
  - rewrite sort_desc_Permutation. by rewrite map_snd_keyed.
  - intros l. rewrite Hh'. destruct (h !! l) as [c|]; destruct (decide (l ∈ candidates));
      simpl; done.
Qed.

Lemma prior_term_no_neg_zero (concept sex : string) (cand : Candidate) :
  adds_no_neg_zero (0.10 * prior concept sex cand)%float.
Proof.
  unfold prior.
  repeat match goal with
         | |- context [if ?b then _ else _] => destruct b
         end; vm_compute; reflexivity.
Qed.

Lemma combined_score_sum (slots : Slots) (cand : Candidate) :
  combined_score slots cand
  = (0.45 * c_semantic cand
     + 0.25 * unit_match (unit_qualifiers slots) cand
     + 0.15 * demo_match (sex slots) (age_band slots) cand
     + 0.10 * prior (lower (concept slots)) (sex slots) cand)%float.
Proof.
  unfold combined_score. change (0.05 * 0.0)%float with 0%float.
  apply add_zero_id, add_not_neg_zero, prior_term_no_neg_zero.
Qed.

(** The sub-scores of the source are those of the specification: the
    count of the requested qualifiers whose predicate holds, the count of
    [has_sex] and [has_age], and the sum of the boosts of the table. *)
Lemma unit_match_hits (uq : list string) (cand : Candidate) :
  unit_match uq cand = float_of_count (unit_hits uq cand).
Proof.
  unfold unit_match, unit_hits, qualifier_predicates, is_per_capita. cbn [map].
  destruct (in_set "ppp" uq && is_ppp _ _),
    (in_set "growth_rate" uq && is_growth _ _),
    (in_set "percent_share" uq && is_percent _ _ _),
    (in_set "count_number" uq && is_count _ _),
    (in_set "constant_usd" uq && is_constant _ _),
    (in_set "current_usd" uq && is_current_usd _ _ _),
    (in_set "per_capita" uq && _); vm_compute; reflexivity.
Qed.

Lemma demo_match_hits (sex age : string) (cand : Candidate) :
  demo_match sex age cand = float_of_count (demo_hits sex age cand).
Proof.
  unfold demo_match, demo_hits.
  destruct (has_sex _ _), (has_age _ _); vm_compute; reflexivity.
Qed.

Lemma prior_boost (concept sex : string) (cand : Candidate) :
  prior concept sex cand = boost concept sex cand.
Proof.
  unfold prior, boost, boost_table. cbv zeta. cbn [fold_left].
  destruct (String.eqb concept "inflation" || String.eqb concept "inflation_cpi") eqn:Hi;
  destruct (String.eqb concept "gdp") eqn:Hg;
  destruct (String.eqb concept "population") eqn:Hp;
  destruct (contains _ _ || String.eqb (c_id cand) "FP.CPI.TOTL.ZG");
  destruct (startswith (c_id cand) "NY.GDP.MKTP");
  destruct (String.eqb (c_id cand) "SP.POP.TOTL" && String.eqb sex "total");
  destruct (startswith (c_id cand) "SP.POP"); cbn [andb negb]; try (vm_compute; reflexivity).
  all: apply String.eqb_eq in Hg, Hp; congruence.
Qed.

(** C6.  The score the scorer attaches to a candidate is exactly
    [0.45 * semantic + 0.25 * unitMatch + 0.15 * demoMatch + 0.10 * prior],
    the sum being evaluated from left to right in binary64.  unitMatch is
    the number of requested unit qualifiers whose predicate holds for the
    candidate, demoMatch the number of [has_sex] and [has_age] that hold, and
    prior the sum of the boosts of the table whose condition holds; the
    further term [0.05 * 0.0] of the source adds nothing. *)
Theorem score_is_weighted_sum (h : heap) (candidates : list loc) (slots : Slots)
    (l : loc) (c : Candidate) :
  live h candidates ->
  l ∈ candidates ->
  h !! l = Some c ->
  exists c',
    (_score_candidates candidates slots h).2 !! l = Some c'
    /\ c_score c'
       = Some (0.45 * c_semantic c
               + 0.25 * float_of_count (unit_hits (unit_qualifiers slots) c)
               + 0.15 * float_of_count (demo_hits (sex slots) (age_band slots) c)
               + 0.10 * boost (lower (concept slots)) (sex slots) c)%float.
Proof.
  intros Hlive Hin Hc.
  destruct (score_candidates_run candidates slots h Hlive) as (h' & Hrun & Hh').
  exists (rescored slots c).
  rewrite Hrun. simpl. rewrite Hh', decide_True, Hc by done.
  split; [done|]. simpl.
  by rewrite combined_score_sum, unit_match_hits, demo_match_hits, prior_boost.
Qed.

(** ** The resolver *)

Lemma build_candidates_run (self : IndicatorResolver)
    (search_results : list (string * float)) (h : heap) :
  exists ls h',
    build_candidates self search_results h = (Return ls, h')
    /\ reads h' ls (found self search_results)
    /\ h ⊆ h'.
Proof.
  revert h. induction search_results as [|[ind_id sem] rest IH]; intros h.
  - exists [], h. repeat split; [constructor | done].
  - simpl. unfold found. simpl. fold (found self rest).
    destruct (id2row self !! ind_id) as [row|]; simpl; [|apply IH].
    set (l := fresh (dom h)). set (c := candidate_of row sem).
    assert (h !! l = None) as Hfresh by apply not_elem_of_dom, is_fresh.
    destruct (IH (<[l := c]> h)) as (ls & h' & Hrun & Hreads & Hsub).
    exists (l :: ls), h'. split; [|split].
    + unfold bind at 1, alloc. fold l c. unfold bind. rewrite Hrun. reflexivity.
    + constructor; [|exact Hreads].
      eapply lookup_weaken; [|exact Hsub]. apply lookup_insert_eq.
    + etrans; [|exact Hsub]. by apply insert_subseteq.
Qed.

Lemma insert_desc_rel {A B} (R : A -> B -> Prop) x y l1 l2 :
  key_rel R x y ->
  Forall2 (key_rel R) l1 l2 ->
  Forall2 (key_rel R) (insert_desc x l1) (insert_desc y l2).
Proof.
  intros Hxy. induction 1 as [|x' y' l1 l2 Hxy' Hl IH]; simpl.
  - constructor; [done | constructor].
  - pose proof Hxy as [Hk _]. pose proof Hxy' as [Hk' _]. rewrite <- Hk, <- Hk'.
    destruct (x.1 <? x'.1)%float.
    + by constructor.
    + constructor; [done|]. by constructor.
Qed.

Lemma sort_desc_rel {A B} (R : A -> B -> Prop) l1 l2 :
  Forall2 (key_rel R) l1 l2 ->
  Forall2 (key_rel R) (sort_desc l1) (sort_desc l2).
Proof.
  induction 1; simpl; [constructor | by apply insert_desc_rel].
Qed.

Lemma ranked_keyed self slots search_results :
  Forall keyed_by_score (ranked self slots search_results).
Proof.
  unfold ranked. rewrite sort_desc_Permutation.
  apply Forall_forall. intros x [c [-> _]]%list_elem_of_fmap. reflexivity.
Qed.

Lemma sort_desc_nil {A} (l : list (float * A)) : sort_desc l = [] <-> l = [].
Proof.
  split; [|by intros ->]. intros Hnil. apply nil_length_inv.
  by rewrite <- (Permutation_length (sort_desc_Permutation l)), Hnil.
Qed.

Lemma ranked_nil self slots search_results :
  ranked self slots search_results = [] <-> surviving self slots search_results = [].
Proof.
  unfold ranked. rewrite sort_desc_nil. split; [apply fmap_nil_inv | by intros ->].
Qed.

Lemma reads_keyed (slots : Slots) (h h' : heap) (ls : list loc) (cs : list Candidate) :
  reads h ls cs ->
  (forall l, l ∈ ls -> h' !! l = rescored slots <$> h !! l) ->
  Forall2 (key_rel (fun l c => h' !! l = Some c))
    (map (fun l => (key_of h' l, l)) ls)
    (map (fun c => (combined_score slots c, rescored slots c)) cs).
Proof.
  induction 1 as [|l c ls cs Hl _ IH]; intros Hh'; [constructor|].
  assert (h' !! l = Some (rescored slots c)) as Hl'.
  { rewrite Hh', Hl by apply list_elem_of_here. done. }
  simpl. constructor.
  - split; simpl; [|done]. unfold key_of. by rewrite Hl'.
  - apply IH. intros l' Hin. apply Hh'. by apply list_elem_of_further.
Qed.

Lemma get_score_run (h : heap) (l : loc) (c : Candidate) (v : float) :
  h !! l = Some c -> c_score c = Some v -> get_score l h = (Return v, h).
Proof. intros Hl Hv. unfold get_score, bind, load. by rewrite Hl, Hv. Qed.

Section ResolverFacts.

Context `{SetOrder}.

Local Open Scope float_scope.

(** [resolve] builds its candidates, filters them and, from whatever heap it
    starts, ends with the outcome [resolution]. *)
Lemma resolve_run (self : IndicatorResolver) (slots : Slots)
    (search_results : list (string * float)) (h : heap) :
  exists candidates h1,
    build_candidates self search_results h = (Return candidates, h1)
    /\ reads h1 candidates (found self search_results)
    /\ _apply_constraints candidates slots h1
       = (Return (filter (holds (accepted slots) h1) candidates), h1)
    /\ reads h1 (filter (holds (accepted slots) h1) candidates)
             (surviving self slots search_results)
    /\ (resolve self slots search_results h).1
       = resolution self slots search_results.
Proof.
  destruct (build_candidates_run self search_results h)
    as (candidates & h1 & Hbuild & Hreads & _).
  pose proof (reads_live _ _ _ Hreads) as Hlive.
  pose proof (apply_constraints_run h1 candidates slots Hlive) as Hfilter.
  pose proof (reads_filter (accepted slots) _ _ _ Hreads) as Hkept.
  fold (surviving self slots search_results) in Hkept.
  exists candidates, h1. do 4 (split; [done|]).
  unfold resolve, bind at 1. rewrite Hbuild. unfold bind at 1. rewrite Hfilter.
  destruct (filter (holds (accepted slots) h1) candidates) as [|l0 filtered'] eqn:Hf.
  - unfold resolution. apply Forall2_nil_inv_l in Hkept.
    rewrite (proj2 (ranked_nil _ _ _) Hkept). reflexivity.
  - pose proof (reads_live _ _ _ Hkept) as Hlive'.
    destruct (score_candidates_run (l0 :: filtered') slots h1 Hlive')
      as (h2 & Hscore & Hh2).
    unfold bind at 1. rewrite Hscore.
    assert (Forall2 (key_rel (fun l c => h2 !! l = Some c))
              (sort_desc (map (fun l => (key_of h2 l, l)) (l0 :: filtered')))
              (ranked self slots search_results)) as Hrel.
    { apply sort_desc_rel. eapply reads_keyed; [exact Hkept|].
      intros l Hin. by rewrite Hh2, decide_True. }
    pose proof (ranked_keyed self slots search_results) as Hkeys.
    unfold resolution.
    remember (sort_desc (map (fun l => (key_of h2 l, l)) (l0 :: filtered')))
      as sortedL eqn:Hsorted.
    destruct Hrel as [|[k0 r0] [s0 b0] restL rest [Hk0 Hb0] Hrest].
    { symmetry in Hsorted. apply (proj1 (sort_desc_nil _)) in Hsorted. discriminate Hsorted. }
    clear Hsorted. simpl in Hk0, Hb0. subst k0.
    apply Forall_cons in Hkeys as [Hs0 Hkeys]. unfold keyed_by_score in Hs0.
    simpl in Hs0. csimpl.
    destruct Hrest as [|[k1 r1] [s1 b1] restL' rest' [Hk1 Hb1] _].
    + csimpl. unfold bind at 1, ret at 1. unfold bind at 1.
      rewrite (get_score_run h2 r0 b0 s0) by done.
      unfold bind, load. rewrite Hb0. reflexivity.
    + simpl in Hk1, Hb1. subst k1.
      apply Forall_cons in Hkeys as [Hs1 _]. unfold keyed_by_score in Hs1.
      simpl in Hs1. csimpl. unfold bind at 1.
      rewrite (get_score_run h2 r1 b1 s1) by done. unfold bind at 1.
      rewrite (get_score_run h2 r0 b0 s0) by done.
      unfold bind, load. rewrite Hb0. reflexivity.
Qed.

(** C4.  [resolve] raises exactly when the constraint filter leaves no
    candidate; the exception is the [ValueError] whose message is the text
    "No suitable indicator after constraints for query='", the synthesized
    query string and a closing quote; in every other case [resolve] returns
    a result. *)
Theorem resolve_raises_iff_filter_empty (self : IndicatorResolver) (slots : Slots)
    (search_results : list (string * float)) (h : heap) :
  exists candidates h1 filtered,
    build_candidates self search_results h = (Return candidates, h1)
    /\ _apply_constraints candidates slots h1 = (Return filtered, h1)
    /\ match (resolve self slots search_results h).1 with
       | Raise e =>
           filtered = []
           /\ e = ValueError ("No suitable indicator after constraints for query='"
                              +:+ build_query_terms slots +:+ "'")
       | Return _ => filtered <> []
       end.
Proof.
  destruct (resolve_run self slots search_results h)
    as (candidates & h1 & Hbuild & _ & Hfilter & Hkept & Hres).
  exists candidates, h1, (filter (holds (accepted slots) h1) candidates).
  do 2 (split; [done|]). rewrite Hres. unfold resolution.
  destruct (ranked self slots search_results) as [|[s0 b0] rest] eqn:Hranked.
  - apply ranked_nil in Hranked. rewrite Hranked in Hkept.
    by apply Forall2_nil_inv_r in Hkept.
  - intros Hnil. rewrite Hnil in Hkept. apply Forall2_nil_inv_l in Hkept.
    apply ranked_nil in Hkept. congruence.
Qed.

(** C1, amended.  The confidence margin [resolve] returns is never below
    zero.  When exactly one candidate passes the filter, the second score is
    taken as [0.0] and the margin is [max(0.0, score - 0.0)] for the score
    of that candidate, which is zero only when that score is not positive.
    When no candidate passes, [resolve] raises and returns no margin; when
    it returns, some candidate passed. *)
Theorem margin_nonneg_single_survivor (self : IndicatorResolver) (slots : Slots)
    (search_results : list (string * float)) (h : heap) :
  exists candidates h1 filtered,
    build_candidates self search_results h = (Return candidates, h1)
    /\ _apply_constraints candidates slots h1 = (Return filtered, h1)
    /\ (filtered = [] ->
        exists e, (resolve self slots search_results h).1 = Raise e)
    /\ match (resolve self slots search_results h).1 with
       | Return r =>
           filtered <> []
           /\ (0 <=? res_confidence_margin r) = true
           /\ forall l c,
                filtered = [l] -> h1 !! l = Some c ->
                res_confidence_margin r
                = PyFloat.max 0 (combined_score slots c - 0)
                /\ ((res_confidence_margin r =? 0) = true
                    <-> (0 <? combined_score slots c) = false)
       | Raise _ => filtered = []
       end.
Proof.
  destruct (resolve_run self slots search_results h)
    as (candidates & h1 & Hbuild & _ & Hfilter & Hkept & Hres).
  exists candidates, h1, (filter (holds (accepted slots) h1) candidates).
  do 2 (split; [done|]). rewrite Hres. unfold resolution.
  destruct (ranked self slots search_results) as [|[s0 b0] rest] eqn:Hranked.
  - split; [by eexists|].
    apply ranked_nil in Hranked. rewrite Hranked in Hkept.
    by apply Forall2_nil_inv_r in Hkept.
  - assert (Hne : filter (holds (accepted slots) h1) candidates <> []).
    { intros Hnil. rewrite Hnil in Hkept. apply Forall2_nil_inv_l in Hkept.
      apply ranked_nil in Hkept. congruence. }
    split; [done|]. split; [done|]. split; [apply max_zero_nonneg|].
    intros l c Hl Hc. rewrite Hl in Hkept.
    apply Forall2_cons_inv_l in Hkept as (c' & cs & Hc' & Hcs & Hsurv).
    apply Forall2_nil_inv_l in Hcs. subst cs.
    unfold ranked in Hranked. rewrite Hsurv in Hranked. simpl in Hranked.
    injection Hranked as <- _ <-. simpl.
    assert (c' = c) as -> by congruence.
    split; [done|]. by rewrite max_zero_eqb, sub_zero_ltb.
Qed.

(** C9.  The outcome of [resolve] does not depend on the heap it starts
    from, and [resolve] does not write to the resolver: a second call with
    the same arguments, run in the heap the first call left, gives the same
    outcome. *)
Theorem resolve_deterministic (self : IndicatorResolver) (slots : Slots)
    (search_results : list (string * float)) (h : heap) :
  (resolve self slots search_results (resolve self slots search_results h).2).1
  = (resolve self slots search_results h).1
  /\ forall h' : heap,
       (resolve self slots search_results h').1
       = (resolve self slots search_results h).1.
Proof.
  assert (forall h0, (resolve self slots search_results h0).1
                     = resolution self slots search_results) as Hany.
  { intros h0. by destruct (resolve_run self slots search_results h0)
      as (? & ? & _ & _ & _ & _ & ?). }
  split; [|intros h']; by rewrite !Hany.
Qed.

End ResolverFacts.

Lemma gdp_refs_live : live gdp_heap gdp_refs.
Proof. repeat constructor; eexists; vm_compute; reflexivity. Qed.

(** C1, as stated, fails: with one surviving candidate the margin is the
    score of that candidate, here above zero. *)
Lemma single_survivor_margin_positive :
  exists candidates h1 l r,
    build_candidates gdp_table gdp_results ∅ = (Return candidates, h1)
    /\ _apply_constraints candidates gdp_ppp_slots h1 = (Return [l], h1)
    /\ (@resolve insertion_order gdp_table gdp_ppp_slots gdp_results ∅).1 = Return r
    /\ (res_confidence_margin r =? 0)%float = false.
Proof.
  do 4 eexists. split; [vm_compute; reflexivity|].
  split; [vm_compute; reflexivity|].
  split; vm_compute; reflexivity.
Qed.

(** C7 on two GDP series, one of them a PPP series, with [ppp] requested. *)
Lemma apply_constraints_filters_witness :
  _apply_constraints gdp_refs gdp_ppp_slots gdp_heap
  = (Return (filter (holds (accepted gdp_ppp_slots) gdp_heap) gdp_refs), gdp_heap)
  /\ sublist (filter (holds (accepted gdp_ppp_slots) gdp_heap) gdp_refs) gdp_refs
  /\ (forall slots' : Slots,
        sex slots' = sex gdp_ppp_slots ->
        age_band slots' = age_band gdp_ppp_slots ->
        (forall q, q ∈ ["ppp"; "growth_rate"; "percent_share"] ->
                   in_set q (unit_qualifiers slots')
                   = in_set q (unit_qualifiers gdp_ppp_slots)) ->
        _apply_constraints gdp_refs slots' gdp_heap
        = _apply_constraints gdp_refs gdp_ppp_slots gdp_heap).
Proof.
  apply (apply_constraints_filters gdp_heap gdp_refs gdp_ppp_slots).
  exact gdp_refs_live.
Defined.

(** C10 on the same two GDP series. *)
Lemma scoring_only_attaches_score_witness :
  exists scored h',
    _score_candidates gdp_refs gdp_ppp_slots gdp_heap = (Return scored, h')
    /\ scored ≡ₚ gdp_refs
    /\ forall l,
         match gdp_heap !! l, h' !! l with
         | Some c, Some c' =>
             c_id c' = c_id c /\ c_name c' = c_name c /\ c_unit c' = c_unit c
             /\ c_topics c' = c_topics c /\ c_sourceNote c' = c_sourceNote c
             /\ c_source c' = c_source c /\ c_semantic c' = c_semantic c
             /\ (l ∈ gdp_refs -> c_score c' = Some (combined_score gdp_ppp_slots c))
             /\ (l ∉ gdp_refs -> c' = c)
         | None, None => True
         | _, _ => False
         end.
Proof.
  apply (scoring_only_attaches_score gdp_heap gdp_refs gdp_ppp_slots).
  exact gdp_refs_live.
Defined.

(** C6 on the PPP series of the same heap, with [ppp] requested: one
    qualifier hit, both demographic hits and the GDP boost, on a semantic
    score of 0.78. *)
Lemma score_is_weighted_sum_witness :
  unit_hits (unit_qualifiers gdp_ppp_slots) gdp_ppp = 1%nat
  /\ demo_hits (sex gdp_ppp_slots) (age_band gdp_ppp_slots) gdp_ppp = 2%nat
  /\ boost (lower (concept gdp_ppp_slots)) (sex gdp_ppp_slots) gdp_ppp = 1%float
  /\ exists c',
       (_score_candidates gdp_refs gdp_ppp_slots gdp_heap).2 !! 2%positive = Some c'
       /\ c_score c' = Some (0.45 * 0.78 + 0.25 * 1 + 0.15 * 2 + 0.10 * 1)%float.
Proof.
  split; [reflexivity|]. split; [reflexivity|]. split; [reflexivity|].
  apply (score_is_weighted_sum gdp_heap gdp_refs gdp_ppp_slots 2%positive gdp_ppp).
  - exact gdp_refs_live.
  - unfold gdp_refs. rewrite !elem_of_cons. auto.
  - vm_compute. reflexivity.
Defined.

(** ** Worked examples *)

(** A GDP question with no qualifier: the parser gives the concept ["gdp"]
    and [sex = "total"]. *)
Example parse_gdp_question :
  _parse_with_dspy gdp_plain gdp_question
  = Return (mkSlots "Japan" "single" (Some 2020%Z) None None None "gdp" [] "total"
              "none" "DSPy+Ollama").
Proof. vm_compute. reflexivity. Qed.

(** The age and gender fragments are cut out of the concept. *)
Example cleaned_concept_population :
  cleaned_concept
    (mkSlots "Japan" "single" None None None None
       "population_female ages 65 and above" [] "female" "65up" "DSPy+Ollama")
  = "population".
Proof. vm_compute. reflexivity. Qed.

(** [ppp] is requested and no candidate is a PPP series: the error carries
    the query ["gdp ppp"]. *)
Example resolve_no_ppp_series :
  (@resolve insertion_order gdp_table gdp_ppp_slots [("NY.GDP.MKTP.CD", 0.82%float)] ∅).1
  = Raise (ValueError "No suitable indicator after constraints for query='gdp ppp'").
Proof. vm_compute. reflexivity. Qed.

(** Both GDP series pass and get the same boosts; the higher semantic score
    wins. *)
Example resolve_gdp_winner :
  res_id <$> (match (@resolve insertion_order gdp_table
                       (mkSlots "Japan" "single" (Some 2020%Z) None None None "gdp" []
                          "total" "none" "DSPy+Ollama")
                       gdp_results ∅).1 with
              | Return r => Some r
              | Raise _ => None
              end)
  = Some "NY.GDP.MKTP.CD".
Proof. vm_compute. reflexivity. Qed.

(** * Further properties *)

(** ** The order of floats *)

Section FloatOrder.

Local Open Scope Z_scope.

Lemma SFltb_key (x y : spec_float) :
  x <> S754_nan -> y <> S754_nan ->
  SFltb x y = true <-> key_lt (order_key x) (order_key y).
Proof.
  intros Hx Hy. unfold SFltb, key_lt.
  destruct x as [sx|sx| |sx mx ex], y as [sy|sy| |sy my ey]; try congruence;
    try destruct sx; try destruct sy; simpl; try (split; [discriminate | lia]);
    try (split; [lia | discriminate]); try (split; [intros _; lia | reflexivity]).
  - rewrite Pos.compare_cont_spec. simpl.
    destruct (Z.compare_spec ex ey), (Pos.compare_spec mx my); simpl;
      split; intros; try discriminate; try reflexivity; lia.
  - rewrite Pos.compare_cont_spec. simpl.
    destruct (Z.compare_spec ex ey), (Pos.compare_spec mx my); simpl;
      split; intros; try discriminate; try reflexivity; lia.
Qed.

End FloatOrder.

Lemma ltb_key (x y : float) :
  not_nan x -> not_nan y ->
  (x <? y)%float = true <-> key_lt (order_key (Prim2SF x)) (order_key (Prim2SF y)).
Proof. intros Hx Hy. rewrite FloatAxioms.ltb_spec. by apply SFltb_key. Qed.

Lemma ltb_nan_l (x y : float) : ~ not_nan x -> (x <? y)%float = false.
Proof.
  unfold not_nan. intros Hx. rewrite FloatAxioms.ltb_spec.
  destruct (Prim2SF x); try (exfalso; apply Hx; discriminate). reflexivity.
Qed.

Lemma ltb_not_nan (x y : float) : (x <? y)%float = true -> not_nan x /\ not_nan y.
Proof.
  rewrite FloatAxioms.ltb_spec. unfold not_nan, SFltb.
  destruct (Prim2SF x), (Prim2SF y); simpl; try discriminate; split; discriminate.
Qed.

(** [<] is asymmetric on all floats. *)
Lemma ltb_asym (x y : float) : (x <? y)%float = true -> (y <? x)%float = false.
Proof.
  intros Hxy. destruct (ltb_not_nan x y Hxy) as [Hx Hy].
  apply not_true_is_false. intros Hyx.
  apply ltb_key in Hxy, Hyx; try done. unfold key_lt in *. lia.
Qed.

(** On numbers, "not below" is transitive. *)
Lemma not_ltb_trans (x y z : float) :
  not_nan x -> not_nan y -> not_nan z ->
  (x <? y)%float = false -> (y <? z)%float = false -> (x <? z)%float = false.
Proof.
  intros Hx Hy Hz Hxy Hyz. apply not_true_is_false. intros Hxz.
  apply not_true_iff_false in Hxy, Hyz.
  rewrite ltb_key in Hxy, Hyz, Hxz by done. unfold key_lt in *. lia.
Qed.

Lemma ltb_not_ltb_trans (x y z : float) :
  not_nan x -> not_nan y -> not_nan z ->
  (x <? y)%float = true -> (z <? y)%float = false -> (x <? z)%float = true.
Proof.
  intros Hx Hy Hz Hxy Hzy. apply not_true_iff_false in Hzy.
  rewrite ltb_key in Hxy, Hzy |- * by done. unfold key_lt in *. lia.
Qed.

(** ** Arithmetic that gives a number *)

Section NotNan.

Local Open Scope Z_scope.

Lemma shr_fexp_nonneg (m e : Z) (l : location) :
  0 <= m -> 0 <= shr_m (shr_fexp prec emax m e l).1.
Proof.
  intros Hm. unfold shr_fexp, shr.
  destruct (fexp prec emax (Zdigits2 m + e) - e) as [|p|p]; simpl;
    rewrite ?shr_record_of_loc_m; try done.
  apply digits_shr_iter. by rewrite shr_record_of_loc_m.
Qed.

Lemma round_nearest_even_nonneg (m : Z) (l : location) :
  0 <= m -> 0 <= round_nearest_even m l.
Proof.
  intros Hm. destruct l as [|[]]; simpl; try lia. destruct (Z.even m); lia.
Qed.

Lemma binary_round_aux_not_nan (sx : bool) (m e : Z) (l : location) :
  0 <= m -> binary_round_aux prec emax sx m e l <> S754_nan.
Proof.
  intros Hm. unfold binary_round_aux.
  pose proof (shr_fexp_nonneg m e l Hm) as H1.
  destruct (shr_fexp prec emax m e l) as [mrs' e']. simpl in H1.
  pose proof (round_nearest_even_nonneg _ (loc_of_shr_record mrs') H1) as H2.
  pose proof (shr_fexp_nonneg _ e' loc_Exact H2) as H3.
  destruct (shr_fexp prec emax _ e' loc_Exact) as [mrs'' e'']. simpl in H3.
  destruct (shr_m mrs''); [done | | lia].
  by destruct (e'' <=? emax - prec).
Qed.

Lemma binary_normalize_not_nan (m e : Z) (s : bool) :
  binary_normalize prec emax m e s <> S754_nan.
Proof.
  destruct m; simpl; [done| |]; unfold binary_round;
    destruct (shl_align _ _ _); apply binary_round_aux_not_nan; lia.
Qed.

End NotNan.

(** Adding a positive zero or a positive finite number to a number gives a
    number. *)
Lemma add_not_nan (x d : float) :
  not_nan x -> adds_no_neg_zero d -> not_nan (x + d)%float.
Proof.
  unfold not_nan, adds_no_neg_zero. intros Hx Hd. rewrite add_spec.
  destruct (Prim2SF d) as [sd|sd| |sd md ed]; try done;
    destruct (Prim2SF x) as [sx|sx| |sx mx ex]; try done;
    try (by destruct sx, sd).
  apply binary_normalize_not_nan.
Qed.

(** Multiplying a number by a finite number gives a number. *)
Lemma mul_finite_not_nan (c x : float) :
  (exists s m e, Prim2SF c = S754_finite s m e) ->
  not_nan x -> not_nan (c * x)%float.
Proof.
  unfold not_nan. intros (s & m & e & Hc) Hx. rewrite mul_spec, Hc.
  destruct (Prim2SF x) as [sx|sx| |sx mx ex]; try done.
  apply binary_round_aux_not_nan. lia.
Qed.

Section Ranking.

Local Open Scope float_scope.

Lemma unit_match_term_no_neg_zero (uq : list string) (cand : Candidate) :
  adds_no_neg_zero (0.25 * unit_match uq cand).
Proof.
  unfold unit_match.
  repeat match goal with
         | |- context [if ?b then _ else _] => destruct b
         end; vm_compute; reflexivity.
Qed.

Lemma demo_match_term_no_neg_zero (sex age : string) (cand : Candidate) :
  adds_no_neg_zero (0.15 * demo_match sex age cand).
Proof.
  unfold demo_match.
  repeat match goal with
         | |- context [if ?b then _ else _] => destruct b
         end; vm_compute; reflexivity.
Qed.

(** The score of a candidate is a number when its semantic score is. *)
Lemma combined_score_not_nan (slots : Slots) (cand : Candidate) :
  not_nan (c_semantic cand) -> not_nan (combined_score slots cand).
Proof.
  intros Hs. rewrite combined_score_sum.
  apply add_not_nan; [|apply prior_term_no_neg_zero].
  apply add_not_nan; [|apply demo_match_term_no_neg_zero].
  apply add_not_nan; [|apply unit_match_term_no_neg_zero].
  apply mul_finite_not_nan; [|done]. do 3 eexists. vm_compute. reflexivity.
Qed.

(** ** The sort *)

Lemma insert_desc_sorted {A} (x : float * A) (l : list (float * A)) :
  not_nan x.1 -> Forall (fun y => not_nan y.1) l ->
  StronglySorted not_below l -> StronglySorted not_below (insert_desc x l).
Proof.
  intros Hx Hl Hs. induction Hs as [|y l Hs IH Hy]; simpl.
  - repeat constructor.
  - apply Forall_cons in Hl as [Hny Hl].
    destruct (x.1 <? y.1) eqn:Hxy.
    + constructor; [by apply IH|].
      rewrite insert_desc_Permutation. constructor; [|done].
      by apply ltb_asym.
    + constructor; [by constructor|]. constructor; [done|].
      apply Forall_forall. intros z Hz.
      eapply (not_ltb_trans _ y.1); try done.
      * by apply (proj1 (Forall_forall _ _) Hl).
      * by apply (proj1 (Forall_forall _ _) Hy).
Qed.

(** On keys that are numbers the sort gives a list in which no element comes
    below a later one. *)
Lemma sort_desc_sorted {A} (l : list (float * A)) :
  Forall (fun y => not_nan y.1) l -> StronglySorted not_below (sort_desc l).
Proof.
  induction 1 as [|x l Hx Hl IH]; simpl; [constructor|].
  apply insert_desc_sorted; [done | | done].
  by rewrite sort_desc_Permutation.
Qed.

(** A list already in order is left as it is. *)
Lemma sort_desc_sorted_id {A} (l : list (float * A)) :
  StronglySorted not_below l -> sort_desc l = l.
Proof.
  induction 1 as [|x l Hs IH Hx]; simpl; [done|].
  rewrite IH. destruct l as [|y l']; simpl; [done|].
  apply Forall_cons in Hx as [Hxy _]. unfold not_below in Hxy. by rewrite Hxy.
Qed.

Lemma insert_desc_stable {A} (k : float) (x : float * A) (l : list (float * A)) :
  not_nan k -> not_nan x.1 -> Forall (fun y => not_nan y.1) l ->
  filter (tied k) (insert_desc x l) = filter (tied k) (x :: l).
Proof.
  intros Hk Hx Hl. induction Hl as [|y l Hy Hl IH]; simpl; [done|].
  destruct (x.1 <? y.1) eqn:Hxy; [|done].
  rewrite filter_cons, IH, !filter_cons.
  destruct (decide (tied k y)) as [[Hy1 Hy2]|]; [|done].
  destruct (decide (tied k x)) as [[Hx1 Hx2]|]; [|done].
  exfalso. assert ((x.1 <? k) = true) as Hxk
    by (by apply (ltb_not_ltb_trans _ y.1)).
  congruence.
Qed.

(** The sort is stable: elements whose keys tie keep their order. *)
Lemma sort_desc_stable {A} (k : float) (l : list (float * A)) :
  not_nan k -> Forall (fun y => not_nan y.1) l ->
  filter (tied k) (sort_desc l) = filter (tied k) l.
Proof.
  intros Hk. induction 1 as [|x l Hx Hl IH]; simpl; [done|].
  rewrite insert_desc_stable; [| done | done | by rewrite sort_desc_Permutation].
  by rewrite !filter_cons, IH.
Qed.

(** ** The scorer ranks *)

Lemma StronglySorted_impl_Forall {A} (R R' : A -> A -> Prop) (P : A -> Prop) (l : list A) :
  (forall a b, P a -> P b -> R a b -> R' a b) ->
  Forall P l -> StronglySorted R l -> StronglySorted R' l.
Proof.
  intros HR HP Hs. induction Hs as [|x l Hs IH Hx]; [constructor|].
  apply Forall_cons in HP as [Px Pl]. constructor; [by apply IH|].
  apply Forall_forall. intros y Hy. apply HR; try done.
  - by apply (proj1 (Forall_forall _ _) Pl).
  - by apply (proj1 (Forall_forall _ _) Hx).
Qed.

Lemma StronglySorted_snd {A} (R : A -> A -> Prop) (l : list (float * A)) :
  StronglySorted (fun a b => R a.2 b.2) l -> StronglySorted R l.*2.
Proof.
  induction 1 as [|x l Hs IH Hx]; csimpl; constructor; [done|].
  apply Forall_fmap. exact Hx.
Qed.

(** After scoring, the decorated list pairs every reference of the list with
    the score now behind it, a number. *)
Lemma keyed_scores (slots : Slots) (h h' : heap) (ls : list loc) :
  live h ls -> semantic_numbers h ls ->
  (forall l, h' !! l = if decide (l ∈ ls) then rescored slots <$> h !! l else h !! l) ->
  Forall (fun x : float * loc => score_at h' x.2 = Some x.1 /\ not_nan x.1)
         (map (fun l => (key_of h' l, l)) ls).
Proof.
  intros Hlive Hsem Hh'. apply Forall_fmap, Forall_forall. intros l Hin. simpl.
  destruct (proj1 (Forall_forall _ _) Hlive l Hin) as [c Hc].
  pose proof (proj1 (Forall_forall _ _) Hsem l Hin c Hc) as Hn.
  assert (h' !! l = Some (rescored slots c)) as Hl'
    by (by rewrite Hh', decide_True, Hc).
  unfold score_at, key_of. rewrite Hl'. simpl. split; [done|].
  by apply combined_score_not_nan.
Qed.

Lemma Forall_not_nan_fst {A} (P : float * A -> Prop) (l : list (float * A)) :
  Forall (fun x => P x /\ not_nan x.1) l -> Forall (fun y => not_nan y.1) l.
Proof. intros Hl. eapply Forall_impl; [exact Hl|]. simpl. tauto. Qed.

Lemma Forall_sort_desc {A} (P : float * A -> Prop) (l : list (float * A)) :
  Forall P l -> Forall P (sort_desc l).
Proof.
  rewrite !Forall_forall. intros Hl x Hx. apply Hl.
  by rewrite sort_desc_Permutation in Hx.
Qed.

(** X1.  When the semantic scores are numbers, the scorer returns its candidates
    in non-increasing score order: no candidate of the returned list scores
    below a later one. *)
Theorem scorer_sorts_by_score (h : heap) (candidates : list loc) (slots : Slots) :
  live h candidates ->
  semantic_numbers h candidates ->
  exists scored h',
    _score_candidates candidates slots h = (Return scored, h')
    /\ StronglySorted (scores_not_below h') scored.
Proof.
  intros Hlive Hsem.
  destruct (score_candidates_run candidates slots h Hlive) as (h' & Hrun & Hh').
  eexists _, h'. split; [exact Hrun|].
  pose proof (keyed_scores slots h h' candidates Hlive Hsem Hh') as Hk.
  apply StronglySorted_snd.
  eapply (StronglySorted_impl_Forall not_below _
            (fun x : float * loc => score_at h' x.2 = Some x.1 /\ not_nan x.1)).
  - intros a b [Ha _] [Hb _] Hab. exists a.1, b.1. by repeat split.
  - by apply Forall_sort_desc.
  - apply sort_desc_sorted. exact (Forall_not_nan_fst _ _ Hk).
Qed.

Lemma fmap_keyed_snd (f : loc -> float) (l : list (float * loc)) :
  Forall (fun x => x.1 = f x.2) l -> l = map (fun l0 => (f l0, l0)) l.*2.
Proof.
  induction 1 as [|[k l0] l Hx Hl IH]; csimpl; [done|].
  simpl in Hx. subst k. by rewrite <- IH.
Qed.

Lemma filter_keyed (k : float) (h : heap) (ls : list loc) :
  Forall (fun l => is_Some (score_at h l)) ls ->
  (filter (tied k) (map (fun l => (key_of h l, l)) ls)).*2
  = filter (score_ties h k) ls.
Proof.
  induction 1 as [|l ls [v Hv] _ IH]; [done|].
  assert (key_of h l = v) as Hkey.
  { unfold key_of, score_at in *. destruct (h !! l) as [c|]; [|done].
    simpl in *. by rewrite Hv. }
  assert (tied k (key_of h l, l) <-> score_ties h k l) as Hiff.
  { unfold tied, score_ties. rewrite Hv, Hkey. simpl.
    destruct (v <? k), (k <? v); simpl; intuition congruence. }
  simpl. rewrite !filter_cons.
  destruct (decide (tied k (key_of h l, l))), (decide (score_ties h k l));
    csimpl; rewrite ?IH; tauto.
Qed.

(** X2.  When the semantic scores are numbers, candidates whose scores tie keep
    the order they came in: the sort is stable. *)
Theorem scorer_keeps_order_of_ties (h : heap) (candidates : list loc) (slots : Slots)
    (k : float) :
  live h candidates ->
  semantic_numbers h candidates ->
  not_nan k ->
  exists scored h',
    _score_candidates candidates slots h = (Return scored, h')
    /\ filter (score_ties h' k) scored = filter (score_ties h' k) candidates.
Proof.
  intros Hlive Hsem Hk.
  destruct (score_candidates_run candidates slots h Hlive) as (h' & Hrun & Hh').
  eexists _, h'. split; [exact Hrun|].
  pose proof (keyed_scores slots h h' candidates Hlive Hsem Hh') as Hks.
  set (keyed := map (fun l => (key_of h' l, l)) candidates) in *.
  assert (Forall (fun l => is_Some (score_at h' l)) candidates) as Hsc.
  { apply Forall_fmap in Hks. eapply Forall_impl; [exact Hks|].
    simpl. intros l [Hl _]. unfold key_of, score_at in *.
    destruct (h' !! l) as [c|]; [|done]. simpl in *.
    destruct (c_score c); [by eexists | done]. }
  assert (Forall (fun x : float * loc => x.1 = key_of h' x.2) (sort_desc keyed)) as Hform.
  { by apply Forall_sort_desc, Forall_fmap, Forall_forall. }
  assert (Forall (fun l => is_Some (score_at h' l)) (sort_desc keyed).*2) as Hsc'.
  { apply Forall_fmap, Forall_sort_desc, Forall_fmap. exact Hsc. }
  rewrite <- (filter_keyed k h' _ Hsc'), <- (fmap_keyed_snd _ _ Hform).
  rewrite sort_desc_stable; [| done | exact (Forall_not_nan_fst _ _ Hks)].
  by apply filter_keyed.
Qed.

Lemma gdp_semantic_numbers : semantic_numbers gdp_heap gdp_refs.
Proof.
  repeat constructor; intros c Hc; vm_compute in Hc; injection Hc as <-;
    vm_compute; discriminate.
Qed.

(** The two GDP series come back with the better score first. *)
Lemma scorer_sorts_by_score_witness :
  exists scored h',
    _score_candidates gdp_refs gdp_ppp_slots gdp_heap = (Return scored, h')
    /\ StronglySorted (scores_not_below h') scored.
Proof.
  apply (scorer_sorts_by_score gdp_heap gdp_refs gdp_ppp_slots).
  - exact gdp_refs_live.
  - exact gdp_semantic_numbers.
Defined.

Lemma tie_refs_live : live tie_heap tie_refs.
Proof. repeat constructor; eexists; vm_compute; reflexivity. Qed.

Lemma tie_semantic_numbers : semantic_numbers tie_heap tie_refs.
Proof.
  repeat constructor; intros c Hc; vm_compute in Hc; injection Hc as <-;
    vm_compute; discriminate.
Qed.

(** Four population series of which the second and the third tie above the
    others: the sort moves both to the front and keeps the second before
    the third. *)
Lemma scorer_keeps_order_of_ties_witness :
  exists scored h',
    _score_candidates tie_refs tie_slots tie_heap = (Return scored, h')
    /\ filter (score_ties h' tie_score) scored
       = filter (score_ties h' tie_score) tie_refs.
Proof.
  apply (scorer_keeps_order_of_ties tie_heap tie_refs tie_slots tie_score).
  - exact tie_refs_live.
  - exact tie_semantic_numbers.
  - vm_compute. discriminate.
Defined.

(** The run of the scorer on these series, and the candidates that tie. *)
Example scorer_moves_ties_to_front :
  exists h',
    _score_candidates tie_refs tie_slots tie_heap
    = (Return [2%positive; 3%positive; 1%positive; 4%positive], h')
    /\ filter (score_ties h' tie_score) tie_refs = [2%positive; 3%positive]
    /\ filter (score_ties h' tie_score) [2%positive; 3%positive; 1%positive; 4%positive]
       = [2%positive; 3%positive].
Proof.
  eexists. split; [vm_compute; reflexivity|]. split; vm_compute; reflexivity.
Qed.

(** ** The table of indicators *)

Lemma foldl_insert_rows (m : gmap string Row) (ind_df : list Row) (k : string) :
  foldl (fun m row => <[row_id row := row]> m) m ind_df !! k
  = match last_row ind_df k with
    | Some row => Some row
    | None => m !! k
    end.
Proof.
  unfold last_row. revert m. induction ind_df as [|row rows IH]; intros m; [done|].
  simpl. rewrite IH, filter_cons.
  destruct (decide (row_id row = k)) as [<-|Hne].
  - rewrite last_cons. destruct (last (filter _ rows)); [done|].
    by rewrite lookup_insert_eq.
  - destruct (last (filter _ rows)); [done|]. by rewrite lookup_insert_ne.
Qed.

(** X3.  The table of [__init__] maps an id to the last row that has it, and to
    nothing when no row has it. *)
Theorem id2row_last_row (ind_df : list Row) (k : string) :
  id2row (new_resolver ind_df) !! k = last_row ind_df k.
Proof.
  unfold new_resolver. simpl. rewrite foldl_insert_rows.
  by destruct (last_row ind_df k).
Qed.

Lemma last_row_id (ind_df : list Row) (k : string) (row : Row) :
  last_row ind_df k = Some row -> row_id row = k /\ row ∈ ind_df.
Proof.
  unfold last_row. intros Hl. apply last_Some_elem_of in Hl.
  by apply list_elem_of_filter in Hl.
Qed.

(** ** What [resolve] returns *)

Lemma elem_of_ranked self slots search_results (x : float * Candidate) :
  x ∈ ranked self slots search_results <->
  exists c, c ∈ surviving self slots search_results
            /\ x = (combined_score slots c, rescored slots c).
Proof.
  unfold ranked. rewrite sort_desc_Permutation, list_elem_of_fmap.
  split; intros (c & ? & ?); eauto.
Qed.

Lemma elem_of_found self search_results (c : Candidate) :
  c ∈ found self search_results <->
  exists ind_id semantic_score row,
    (ind_id, semantic_score) ∈ search_results
    /\ id2row self !! ind_id = Some row
    /\ c = candidate_of row semantic_score.
Proof.
  unfold found. rewrite list_elem_of_omap. split.
  - intros ([ind_id sem] & Hin & Hc).
    destruct (id2row self !! ind_id) as [row|] eqn:Hrow; [|done].
    injection Hc as <-. by exists ind_id, sem, row.
  - intros (ind_id & sem & row & Hin & Hrow & ->).
    exists (ind_id, sem). split; [done|]. by rewrite Hrow.
Qed.

Section ResolveReturns.

Context `{SetOrder}.

(** X4.  The indicator [resolve] returns is one of the search results, is in the
    table, carries the name and unit of its row there and passes the hard
    constraints. *)
Theorem resolve_returns_catalog_survivor (ind_df : list Row) (slots : Slots)
    (search_results : list (string * float)) (h : heap) :
  match (resolve (new_resolver ind_df) slots search_results h).1 with
  | Return r =>
      exists semantic_score row,
        (res_id r, semantic_score) ∈ search_results
        /\ last_row ind_df (res_id r) = Some row
        /\ res_name r = row_name row
        /\ res_unit r = default "" (row_unit row)
        /\ rejected slots (candidate_of row semantic_score) = false
  | Raise _ => surviving (new_resolver ind_df) slots search_results = []
  end.
Proof.
  destruct (resolve_run (new_resolver ind_df) slots search_results h)
    as (candidates & h1 & _ & _ & _ & _ & ->).
  unfold resolution.
  destruct (ranked _ slots search_results) as [|[s0 b] rest] eqn:Hranked;
    [by apply ranked_nil in Hranked|].
  assert ((s0, b) ∈ ranked (new_resolver ind_df) slots search_results) as Hin
    by (rewrite Hranked; apply list_elem_of_here).
  apply elem_of_ranked in Hin as (c & Hc & [= -> ->]).
  apply list_elem_of_filter in Hc as [Hacc Hc].
  apply elem_of_found in Hc as (ind_id & sem & row & Hsr & Hrow & ->).
  rewrite id2row_last_row in Hrow.
  destruct (last_row_id _ _ _ Hrow) as [Hid _].
  exists sem, row. simpl. rewrite Hid. repeat split; try done.
  unfold accepted in Hacc. by destruct (rejected slots _).
Qed.

(** X5.  When the semantic scores of the search results are numbers, [resolve]
    returns a survivor of the filter that no survivor outscores. *)
Theorem resolve_returns_top_score (self : IndicatorResolver) (slots : Slots)
    (search_results : list (string * float)) (h : heap) :
  Forall (fun p => not_nan p.2) search_results ->
  match (resolve self slots search_results h).1 with
  | Return r =>
      exists best,
        best ∈ surviving self slots search_results
        /\ res_id r = c_id best /\ res_name r = c_name best
        /\ res_unit r = c_unit best
        /\ forall c, c ∈ surviving self slots search_results ->
                     (combined_score slots best <? combined_score slots c) = false
  | Raise _ => surviving self slots search_results = []
  end.
Proof.
  intros Hnum.
  destruct (resolve_run self slots search_results h)
    as (candidates & h1 & _ & _ & _ & _ & ->).
  unfold resolution.
  destruct (ranked self slots search_results) as [|[s0 b] rest] eqn:Hranked;
    [by apply ranked_nil in Hranked|].
  assert (Forall (fun y : float * Candidate => not_nan y.1)
            (map (fun c => (combined_score slots c, rescored slots c))
                 (surviving self slots search_results))) as Hkeys.
  { apply Forall_fmap, Forall_forall. intros c Hc. simpl.
    apply combined_score_not_nan.
    apply list_elem_of_filter in Hc as [_ Hc].
    apply elem_of_found in Hc as (ind_id & sem & row & Hsr & _ & ->). simpl.
    by apply (proj1 (Forall_forall _ _) Hnum (ind_id, sem)). }
  pose proof (sort_desc_sorted _ Hkeys) as Hsorted.
  fold (ranked self slots search_results) in Hsorted. rewrite Hranked in Hsorted.
  apply StronglySorted_inv in Hsorted as [_ Hhead].
  assert ((s0, b) ∈ ranked self slots search_results) as Hin
    by (rewrite Hranked; apply list_elem_of_here).
  apply elem_of_ranked in Hin as (best & Hbest & [= -> ->]).
  exists best. simpl. repeat split; try done.
  intros c Hc.
  assert ((combined_score slots c, rescored slots c)
            ∈ ranked self slots search_results) as Hc'
    by (apply elem_of_ranked; eauto).
  rewrite Hranked in Hc'. apply elem_of_cons in Hc' as [[= Heq _]|Hc'].
  - rewrite Heq. destruct (_ <? _) eqn:Hlt; [|done].
    by rewrite (ltb_asym _ _ Hlt) in Hlt.
  - exact (proj1 (Forall_forall _ _) Hhead _ Hc').
Qed.

End ResolveReturns.

(** The GDP request without a qualifier over the two GDP series, the one
    with the lower score first: both survive and the second is returned. *)
Lemma resolve_returns_top_score_witness :
  length (surviving gdp_table gdp_total_slots gdp_results_low_first) = 2%nat
  /\ match (@resolve insertion_order gdp_table gdp_total_slots gdp_results_low_first ∅).1
     with
     | Return r =>
         exists best,
           best ∈ surviving gdp_table gdp_total_slots gdp_results_low_first
           /\ res_id r = c_id best /\ res_name r = c_name best
           /\ res_unit r = c_unit best
           /\ forall c, c ∈ surviving gdp_table gdp_total_slots gdp_results_low_first ->
                        (combined_score gdp_total_slots best
                         <? combined_score gdp_total_slots c) = false
     | Raise _ => surviving gdp_table gdp_total_slots gdp_results_low_first = []
     end.
Proof.
  split; [vm_compute; reflexivity|].
  apply (@resolve_returns_top_score insertion_order gdp_table gdp_total_slots
           gdp_results_low_first ∅).
  repeat constructor; vm_compute; discriminate.
Defined.

(** The series returned is the second of the two results. *)
Example resolve_gdp_low_first :
  exists r,
    (@resolve insertion_order gdp_table gdp_total_slots gdp_results_low_first ∅).1
    = Return r
    /\ res_id r = "NY.GDP.MKTP.CD".
Proof. eexists. split; vm_compute; reflexivity. Qed.

(** ** The filter and the scorer together *)

(** X6.  A candidate that passes the filter gets the full demographic match. *)
Theorem survivor_demo_match (slots : Slots) (cand : Candidate) :
  rejected slots cand = false ->
  demo_match (sex slots) (age_band slots) cand = 2%float.
Proof.
  unfold rejected, demo_match. intros Hr.
  apply orb_false_elim in Hr as [Hr Hage].
  apply orb_false_elim in Hr as [_ Hsex].
  apply negb_false_iff in Hage, Hsex. rewrite Hage, Hsex. reflexivity.
Qed.

Lemma survivor_demo_match_witness :
  demo_match (sex gdp_ppp_slots) (age_band gdp_ppp_slots) gdp_ppp = 2%float.
Proof.
  apply (survivor_demo_match gdp_ppp_slots gdp_ppp). vm_compute. reflexivity.
Defined.

(** X7.  Filtering the output of the filter again changes nothing. *)
Theorem apply_constraints_idempotent (h : heap) (candidates : list loc) (slots : Slots) :
  live h candidates ->
  exists filtered,
    _apply_constraints candidates slots h = (Return filtered, h)
    /\ _apply_constraints filtered slots h = (Return filtered, h).
Proof.
  intros Hlive. eexists. split; [by apply apply_constraints_run|].
  rewrite apply_constraints_run.
  - by rewrite list_filter_filter_l.
  - unfold live in *. rewrite Forall_forall in *. intros l Hl. apply Hlive.
    by apply list_elem_of_filter in Hl as [_ ?].
Qed.

Lemma apply_constraints_idempotent_witness :
  exists filtered,
    _apply_constraints gdp_refs gdp_ppp_slots gdp_heap = (Return filtered, gdp_heap)
    /\ _apply_constraints filtered gdp_ppp_slots gdp_heap = (Return filtered, gdp_heap).
Proof.
  apply (apply_constraints_idempotent gdp_heap gdp_refs gdp_ppp_slots).
  exact gdp_refs_live.
Defined.

End Ranking.

(** ** Strings: concatenation, prefixes and substrings *)

Lemma append_nil_l (t : string) : "" +:+ t = t.
Proof. reflexivity. Qed.

Lemma append_cons (a : ascii) (s t : string) : String a s +:+ t = String a (s +:+ t).
Proof. reflexivity. Qed.

Lemma append_assoc (a b c : string) : (a +:+ b) +:+ c = a +:+ (b +:+ c).
Proof. induction a as [|x a IH]; [done|]. by rewrite !append_cons, IH. Qed.

Lemma append_nil_r (s : string) : s +:+ "" = s.
Proof. induction s as [|a s IH]; [done|]. by rewrite append_cons, IH. Qed.

Lemma prefix_spec (p s : string) :
  String.prefix p s = true <-> exists t, s = p +:+ t.
Proof.
  revert s. induction p as [|a p IH]; intros s.
  - split; [exists s; done | by destruct s].
  - destruct s as [|b s]; simpl.
    + split; [done | intros [t Ht]; discriminate].
    + destruct (ascii_dec a b) as [->|Hab].
      * rewrite IH. split; intros [t Ht]; exists t.
        -- by rewrite append_cons, Ht.
        -- rewrite append_cons in Ht. by injection Ht.
      * split; [done|]. intros [t Ht]. rewrite append_cons in Ht. congruence.
Qed.

Lemma contains_spec (needle hay : string) :
  contains needle hay = true <-> exists a b, hay = a +:+ needle +:+ b.
Proof.
  induction hay as [|c hay IH].
  - change (contains needle "") with (String.prefix needle "" || false).
    rewrite orb_false_r, prefix_spec. split.
    + intros [t Ht]. by exists "", t.
    + intros (a & b & Hab). destruct a; [by exists b|discriminate].
  - change (contains needle (String c hay))
      with (String.prefix needle (String c hay) || contains needle hay).
    rewrite orb_true_iff, prefix_spec, IH. split.
    + intros [[t Ht] | (a & b & Hab)].
      * by exists "", t.
      * exists (String c a), b. by rewrite Hab.
    + intros (a & b & Hab). destruct a as [|x a].
      * left. by exists b.
      * right. rewrite append_cons in Hab. injection Hab as _ Hab. by exists a, b.
Qed.

Lemma contains_trans (x y s : string) :
  contains x y = true -> contains y s = true -> contains x s = true.
Proof.
  rewrite !contains_spec. intros (a & b & ->) (a' & b' & ->).
  exists (a' +:+ a), (b +:+ b'). by rewrite !append_assoc.
Qed.

Lemma contains_app_l (x a b : string) :
  contains x a = true -> contains x (a +:+ b) = true.
Proof.
  rewrite !contains_spec. intros (u & v & ->). exists u, (v +:+ b).
  by rewrite !append_assoc.
Qed.

Lemma contains_app_r (x a b : string) :
  contains x b = true -> contains x (a +:+ b) = true.
Proof.
  rewrite !contains_spec. intros (u & v & ->). exists (a +:+ u), v.
  by rewrite !append_assoc.
Qed.

Lemma contains_refl (x : string) : contains x x = true.
Proof. apply contains_spec. exists "", "". rewrite append_nil_l. clear. induction x; [done|]. rewrite append_cons. congruence. Qed.

Lemma prefix_app (c t : string) : String.prefix c (c +:+ t) = true.
Proof.
  induction c as [|a c IH]; [by destruct t|].
  rewrite append_cons. simpl.
  destruct (ascii_dec a a); [exact IH | done].
Qed.


(** ** Strings: [strip], [join] and [lower] *)

Lemma lstrip_fixed (a : ascii) (s : string) :
  isspace a = false -> lstrip (String a s) = String a s.
Proof. intros Ha. simpl. by rewrite Ha. Qed.

Lemma rstrip_idem (s : string) : rstrip (rstrip s) = rstrip s.
Proof.
  induction s as [|c s IH]; simpl; [done|].
  destruct (rstrip s) as [|b r] eqn:Hr.
  - destruct (isspace c) eqn:Hc; simpl; [done | by rewrite Hc].
  - simpl in IH. simpl. destruct (rstrip r) as [|b' r'] eqn:Hr'.
    + destruct (isspace b); [discriminate | by injection IH as <-].
    + by rewrite IH.
Qed.

Lemma strip_idem (s : string) : strip (strip s) = strip s.
Proof.
  unfold strip at 1. destruct (strip s) as [|a r] eqn:Hs; [done|].
  rewrite lstrip_fixed by (by apply (strip_head s a r)).
  rewrite <- Hs. unfold strip. apply rstrip_idem.
Qed.

Lemma rstrip_cons (a : ascii) (s : string) :
  rstrip (String a s) =
  match rstrip s with
  | EmptyString => if isspace a then EmptyString else String a EmptyString
  | r => String a r
  end.
Proof. reflexivity. Qed.

Lemma rstrip_keeps_prefix (c t : string) :
  rstrip c = c -> c <> "" -> rstrip (c +:+ t) = c +:+ rstrip t.
Proof.
  induction c as [|a c IH]; [done|]. intros Hc _.
  rewrite append_cons, rstrip_cons. rewrite rstrip_cons in Hc.
  destruct c as [|b c'].
  - simpl in Hc. rewrite !append_nil_l.
    destruct (isspace a) eqn:Ha; [discriminate|].
    by destruct (rstrip t).
  - assert (Hc' : rstrip (String b c') = String b c').
    { destruct (rstrip (String b c')) as [|b2 r2] eqn:Hr.
      - destruct (isspace a); discriminate.
      - injection Hc as -> ->. reflexivity. }
    rewrite IH by done. by rewrite !append_cons.
Qed.

Lemma rstrip_app_nonempty (a t : string) :
  rstrip t <> "" -> rstrip (a +:+ t) = a +:+ rstrip t.
Proof.
  intros Ht. induction a as [|c a IH]; [done|].
  rewrite !append_cons, rstrip_cons, IH.
  destruct (a +:+ rstrip t) eqn:E; [|done].
  destruct a; [by rewrite append_nil_l in E | discriminate].
Qed.

Lemma contains_lstrip (x s : string) :
  solid x -> contains x s = true -> contains x (lstrip s) = true.
Proof.
  intros (Hx & Hl & _). induction s as [|c s IH]; [done|].
  change (contains x (String c s))
    with (String.prefix x (String c s) || contains x s).
  simpl lstrip. destruct (isspace c) eqn:Hc.
  - intros [Hp|Hs]%orb_true_iff; [|by apply IH].
    destruct x as [|a x]; [done|]. simpl in Hp.
    destruct (ascii_dec a c) as [->|]; [|done].
    simpl in Hl. rewrite Hc in Hl.
    assert (Hlen : String.length (lstrip x) <= String.length x).
    { clear. induction x as [|b x IH]; simpl; [done|]. destruct (isspace b); simpl; lia. }
    rewrite Hl in Hlen. simpl in Hlen. lia.
  - intros H. exact H.
Qed.

Lemma contains_rstrip (x s : string) :
  solid x -> contains x s = true -> contains x (rstrip s) = true.
Proof.
  intros (Hx & _ & Hr). rewrite !contains_spec. intros (a & b & ->).
  exists a, (rstrip b).
  rewrite <- (rstrip_keeps_prefix x b Hr Hx).
  apply rstrip_app_nonempty. rewrite rstrip_keeps_prefix by done.
  destruct x; [done | discriminate].
Qed.

Lemma contains_strip (x s : string) :
  solid x -> contains x s = true -> contains x (strip s) = true.
Proof. intros Hx Hs. unfold strip. by apply contains_rstrip, contains_lstrip. Qed.

Lemma contains_join (sep x : string) (bits : list string) :
  x ∈ bits -> contains x (join sep bits) = true.
Proof.
  induction bits as [|b bits IH]; [by intros ?%elem_of_nil|].
  intros [->|Hin]%elem_of_cons.
  - destruct bits; [apply contains_refl|]. apply contains_app_l, contains_refl.
  - destruct bits as [|b' bits]; [by apply elem_of_nil in Hin|].
    change (join sep (b :: b' :: bits)) with (b +:+ sep +:+ join sep (b' :: bits)).
    by apply contains_app_r, contains_app_r, IH.
Qed.

Lemma lower_app (a b : string) : lower (a +:+ b) = lower a +:+ lower b.
Proof. induction a as [|c a IH]; [done|]. rewrite append_cons. simpl. by rewrite IH. Qed.

Lemma contains_lower (x s : string) :
  contains x s = true -> contains (lower x) (lower s) = true.
Proof.
  rewrite !contains_spec. intros (a & b & ->). exists (lower a), (lower b).
  by rewrite !lower_app.
Qed.

Lemma endswith_contains (s p : string) :
  endswith s p = true -> contains p s = true.
Proof.
  induction s as [|c s IH].
  - destruct p; [done|discriminate].
  - change (endswith (String c s) p) with (String.eqb (String c s) p || endswith s p).
    change (contains p (String c s)) with (String.prefix p (String c s) || contains p s).
    intros [->%String.eqb_eq | H]%orb_true_iff.
    + apply orb_true_iff. left. apply prefix_spec. exists "".
      by rewrite append_nil_r.
    + apply orb_true_iff. right. by apply IH.
Qed.

Lemma solid_literal (x : string) :
  truthy x = true -> lstrip x = x -> rstrip x = x -> solid x.
Proof. intros Ht Hl Hr. split; [by destruct x|done]. Qed.

(** ** The shape of the query string *)

Section QueryShape.

Context `{SetOrder}.

(** X8.  The query string is a result of [strip]: stripping it again changes
    nothing, so it has no white space at either end. *)
Theorem build_query_terms_stripped (slots : Slots) :
  strip (build_query_terms slots) = build_query_terms slots.
Proof.
  unfold build_query_terms. cbv zeta.
  destruct (truthy _); [apply strip_idem|].
  unfold cleaned_concept. cbv zeta. apply strip_idem.
Qed.

(** X9.  Unless the cleaned concept is the word unknown, the query string
    starts with the cleaned concept. *)
Theorem build_query_terms_starts_with_concept (slots : Slots) :
  cleaned_concept slots <> "unknown" ->
  startswith (build_query_terms slots) (cleaned_concept slots) = true.
Proof.
  intros Hu. unfold startswith.
  destruct (cleaned_concept slots) as [|a r] eqn:Hc; [by destruct (build_query_terms slots)|].
  assert (Ha : isspace a = false) by (by apply (strip_head _ a r) in Hc).
  assert (Hfix : rstrip (String a r) = String a r).
  { rewrite <- Hc. unfold cleaned_concept. cbv zeta. unfold strip. apply rstrip_idem. }
  destruct (query_bits_head slots) as [rest Hb].
  { rewrite Hc. change (truthy (String a r)) with true.
    apply andb_true_intro; split; [done|]. by apply negb_true_iff, String.eqb_neq. }
  unfold build_query_terms. cbv zeta. rewrite Hb, Hc.
  assert (Hj : exists t, join " " (String a r :: rest) = String a r +:+ t).
  { destruct rest as [|b rest]; [exists ""|by eexists].
    simpl. by rewrite append_nil_r. }
  destruct Hj as [t ->].
  unfold strip. rewrite append_cons, lstrip_fixed, <- append_cons by done.
  rewrite rstrip_keeps_prefix by done.
  rewrite append_cons. cbv [truthy negb String.eqb]. rewrite <- append_cons. apply prefix_app.
Qed.


End QueryShape.

(** The PPP request: the query starts with the concept gdp. *)
Lemma build_query_terms_starts_with_concept_witness :
  startswith (@build_query_terms insertion_order gdp_ppp_slots)
             (cleaned_concept gdp_ppp_slots) = true.
Proof.
  apply (@build_query_terms_starts_with_concept insertion_order gdp_ppp_slots).
  vm_compute. discriminate.
Defined.

(** ** The qualifier set and its iteration order *)

Lemma qualifier_bits_app (bits : list string) (q : string) :
  qualifier_bits bits q = bits ++ qualifier_words q.
Proof.
  unfold qualifier_words, qualifier_bits.
  repeat match goal with
         | |- context [if ?c then _ else _] => destruct c
         end; simpl; by rewrite ?app_nil_r.
Qed.

Lemma foldl_qualifier_bits_app (bits qs : list string) :
  foldl qualifier_bits bits qs = bits ++ (qs ≫= qualifier_words).
Proof.
  revert bits. induction qs as [|q qs IH]; intros bits; simpl.
  - by rewrite app_nil_r.
  - rewrite IH, qualifier_bits_app, <- app_assoc. done.
Qed.

(** X10.  The words of the query do not depend on how the qualifier set is
    stored or iterated: two slot records with the same concept, sex and age
    band and the same set of qualifiers give the same words up to their
    order, under any two iteration orders. *)
Theorem query_bits_set_order (o1 o2 : SetOrder) (s1 s2 : Slots) :
  same_but_qualifiers s1 s2 ->
  @query_bits o1 s1 ≡ₚ @query_bits o2 s2.
Proof.
  intros (Hc & Hs & Ha & Hq).
  assert (Hcc : cleaned_concept s1 = cleaned_concept s2)
    by (unfold cleaned_concept; by rewrite Hc).
  assert (Hp : @set_iter o1 (unit_qualifiers s1) ≡ₚ @set_iter o2 (unit_qualifiers s2)).
  { apply NoDup_Permutation; try apply set_iter_NoDup.
    intros q. rewrite !set_iter_elem. apply Hq. }
  assert (Hw : @set_iter o1 (unit_qualifiers s1) ≫= qualifier_words
               ≡ₚ @set_iter o2 (unit_qualifiers s2) ≫= qualifier_words)
    by (by rewrite Hp).
  unfold query_bits. cbv zeta. rewrite !foldl_qualifier_bits_app, Hcc, Hs, Ha.
  repeat match goal with
         | |- context [if ?c then _ else _] => destruct c
         end; by rewrite Hw.
Qed.


(** The PPP request with the qualifier stored once and stored twice. *)
Lemma query_bits_set_order_witness :
  @query_bits insertion_order gdp_ppp_slots
  ≡ₚ @query_bits insertion_order gdp_ppp_slots_reordered.
Proof.
  apply (query_bits_set_order insertion_order insertion_order
           gdp_ppp_slots gdp_ppp_slots_reordered).
  repeat split; simpl; list_mem.
Defined.

(** ** The slots the parser returns *)

Lemma parse_return (result : Prediction) (question : string) (slots : Slots) :
  parse result question = Return slots ->
  let q := lower question in
  let concept' := normalized_concept (strip (out_concept result)) q in
  let unit := lower (default "" (unless_none (out_unit result))) in
  let demographics := lower (default "" (unless_none (out_demographics result))) in
  exists time_mode' year' latest_n',
    time_slots (strip (out_year result)) q = Return (time_mode', year', latest_n')
    /\ slots = {| country_text := strip (out_country result);
                  time_mode := time_mode';
                  year := year';
                  start_year := None;
                  end_year := None;
                  latest_n := latest_n';
                  concept := concept';
                  unit_qualifiers := snd (sex_slots concept' q demographics (unit_slots unit q));
                  sex := fst (sex_slots concept' q demographics (unit_slots unit q));
                  age_band := age_slot demographics;
                  notes := "DSPy+Ollama" |}.
Proof.
  intros Hp q concept' unit demographics. unfold parse, _parse_with_dspy in Hp.
  fold q concept' unit demographics in Hp.
  destruct (time_slots (strip (out_year result)) q) as [[[tm y] ln]|e]; [|discriminate].
  destruct (sex_slots concept' q demographics (unit_slots unit q)) as [sx uq] eqn:E.
  injection Hp as <-. by exists tm, y, ln.
Qed.

Lemma int_digits_nonneg (s : string) (acc v : Z) :
  (0 <= acc)%Z -> int_digits acc s = Some v -> (0 <= v)%Z.
Proof.
  revert acc. induction s as [|c s IH]; intros acc Hacc; simpl.
  - intros [= <-]. done.
  - destruct (isdecimal c) eqn:Hc; [|discriminate].
    apply IH. unfold isdecimal, between in Hc.
    apply andb_true_iff in Hc as [Hc _]. apply N.leb_le in Hc. lia.
Qed.

Lemma int_nonneg (s : string) (v : Z) : int s = Some v -> (0 <= v)%Z.
Proof. destruct s; [discriminate|]. by apply int_digits_nonneg. Qed.

Lemma time_slots_return (year_str q time_mode' : string) (year' latest_n' : option Z) :
  time_slots year_str q = Return (time_mode', year', latest_n') ->
  (time_mode' = "single" /\ latest_n' = None
   /\ (year' = None \/ exists y, year' = Some y /\ (0 <= y)%Z /\ int year_str = Some y))
  \/ (time_mode' = "latest_n" /\ year' = None /\ latest_n' = Some 1%Z).
Proof.
  unfold time_slots.
  destruct (truthy year_str && isdigit year_str).
  - destruct (int year_str) as [y|] eqn:Hy; [|discriminate].
    intros [= <- <- <-]. left. repeat split. right. exists y. repeat split.
    by apply (int_nonneg year_str).
  - destruct (contains "latest" q || contains "most recent" q);
      intros [= <- <- <-]; [right | left]; auto.
Qed.

(** X11.  For the slots of a parsed question the request asks for one year,
    [date=<year>] with that year as the requested year, exactly when the
    year text is a positive number; in every other case, the year 0 and the
    questions about the latest value included, it asks for the most recent
    value, and a range is never asked for. *)
Theorem parsed_time_params (result : Prediction) (question : string) (slots : Slots) :
  parse result question = Return slots ->
  build_time_params slots =
    match year slots with
    | Some y => if (0 <? y)%Z then ("date=" +:+ pretty y, Some y)
                else ("mrv=1&gapfill=y", None)
    | None => ("mrv=1&gapfill=y", None)
    end.
Proof.
  intros Hp. destruct (parse_return _ _ _ Hp) as (tm & y & ln & Ht & ->).
  apply time_slots_return in Ht as [(-> & -> & Hy) | (-> & -> & ->)];
    [|reflexivity].
  destruct Hy as [-> | (v & -> & Hv & _)]; [reflexivity|].
  unfold build_time_params. simpl.
  destruct (Z.eqb_spec v 0) as [->|Hne]; [reflexivity|].
  simpl. by destruct (Z.ltb_spec 0 v); [|lia].
Qed.


(** The GDP question: the request is for the year 2020. *)
Lemma parsed_time_params_witness :
  exists slots,
    parse gdp_plain gdp_question = Return slots
    /\ build_time_params slots = ("date=2020", Some 2020%Z).
Proof.
  eexists. split; [reflexivity|].
  apply (parsed_time_params gdp_plain gdp_question). reflexivity.
Defined.

(** X12.  The slots of a parsed question are well formed: the time mode is
    [single] or [latest_n], [latest_n] is 1 exactly in the second mode and
    absent in the first, a year is never negative and comes only with the
    mode [single], no range is set, the sex is one of total, female and
    male, and the age band one of none, 65up and 1524. *)
Theorem parse_output_well_formed (result : Prediction) (question : string) (slots : Slots) :
  parse result question = Return slots ->
  ((time_mode slots = "single" /\ latest_n slots = None)
   \/ (time_mode slots = "latest_n" /\ latest_n slots = Some 1%Z /\ year slots = None))
  /\ (forall y, year slots = Some y -> (0 <= y)%Z)
  /\ start_year slots = None /\ end_year slots = None
  /\ sex slots ∈ ["total"; "female"; "male"]
  /\ age_band slots ∈ ["none"; "65up"; "1524"].
Proof.
  intros Hp. destruct (parse_return _ _ _ Hp) as (tm & y & ln & Ht & ->). simpl.
  apply time_slots_return in Ht.
  split; [|split; [|split; [done|split; [done|split]]]].
  - destruct Ht as [(-> & -> & _) | (-> & -> & ->)]; auto.
  - intros v ->. destruct Ht as [(_ & _ & [?|(v' & [= ->] & ? & _)]) | (_ & ? & _)];
      [discriminate | done | discriminate].
  - unfold sex_slots. split_ifs; list_mem.
  - unfold age_slot. split_ifs; list_mem.
Qed.


Lemma parse_output_well_formed_witness :
  exists slots,
    parse gdp_plain gdp_question = Return slots
    /\ ((time_mode slots = "single" /\ latest_n slots = None)
        \/ (time_mode slots = "latest_n" /\ latest_n slots = Some 1%Z
            /\ year slots = None))
    /\ (forall y, year slots = Some y -> (0 <= y)%Z)
    /\ start_year slots = None /\ end_year slots = None
    /\ sex slots ∈ ["total"; "female"; "male"]
    /\ age_band slots ∈ ["none"; "65up"; "1524"].
Proof.
  eexists. split; [reflexivity|].
  apply (parse_output_well_formed gdp_plain gdp_question). reflexivity.
Defined.

Lemma add_count_number_NoDup (l : list string) :
  NoDup l -> NoDup (add_count_number l).
Proof.
  intros Hl. unfold add_count_number. case_bool_decide; simpl; [done|].
  apply NoDup_app. split; [done|]. split; [|apply NoDup_singleton].
  intros x Hx. rewrite list_elem_of_singleton. by intros ->.
Qed.

Lemma unit_slots_NoDup (unit q : string) : NoDup (unit_slots unit q).
Proof.
  unfold unit_slots. split_ifs; cbv zeta; simpl;
    repeat (apply NoDup_cons; split; [list_mem|]); apply NoDup_nil_2.
Qed.


Lemma all_in_names (l : list string) :
  forallb (fun y => bool_decide (y ∈ qualifier_names)) l = true ->
  forall x, x ∈ l -> x ∈ qualifier_names.
Proof.
  rewrite forallb_forall. intros Hall x Hx%list_elem_of_In.
  exact (bool_decide_eq_true_1 _ (Hall x Hx)).
Qed.

Lemma unit_slots_names (unit q x : string) :
  x ∈ unit_slots unit q -> x ∈ qualifier_names.
Proof.
  revert x. apply all_in_names. unfold unit_slots. split_ifs; reflexivity.
Qed.

(** X13.  The qualifiers of a parsed question are pairwise distinct and taken
    from the seven names the resolver knows; [count_number] is added at most
    once although two places of the code add it. *)
Theorem parse_qualifiers_distinct (result : Prediction) (question : string) (slots : Slots) :
  parse result question = Return slots ->
  NoDup (unit_qualifiers slots)
  /\ forall x, x ∈ unit_qualifiers slots -> x ∈ qualifier_names.
Proof.
  intros Hp. destruct (parse_return _ _ _ Hp) as (tm & y & ln & _ & ->). simpl.
  set (uq := unit_slots _ _).
  assert (Hn : NoDup uq) by apply unit_slots_NoDup.
  assert (Hs : forall x, x ∈ uq -> x ∈ qualifier_names) by apply unit_slots_names.
  assert (Hc : forall x, x ∈ add_count_number uq -> x ∈ qualifier_names).
  { intros x [?| ->]%elem_of_add_count_number; [auto|]. unfold qualifier_names. list_mem. }
  assert (Hcc : forall x, x ∈ add_count_number (add_count_number uq) -> x ∈ qualifier_names).
  { intros x [?| ->]%elem_of_add_count_number; [auto|]. unfold qualifier_names. list_mem. }
  unfold sex_slots. split_ifs; split; auto using add_count_number_NoDup.
Qed.


Lemma parse_qualifiers_distinct_witness :
  exists slots,
    parse population_answer population_question = Return slots
    /\ NoDup (unit_qualifiers slots)
    /\ forall x, x ∈ unit_qualifiers slots -> x ∈ qualifier_names.
Proof.
  eexists. split; [reflexivity|].
  apply (parse_qualifiers_distinct population_answer population_question). reflexivity.
Defined.

Lemma unit_slots_no_count (unit q : string) : "count_number" ∉ unit_slots unit q.
Proof. unfold unit_slots. split_ifs; cbv zeta; simpl; list_mem. Qed.

Lemma sex_slots_count (concept q demographics : string) (uq : list string) :
  "count_number" ∉ uq ->
  "count_number" ∈ snd (sex_slots concept q demographics uq) ->
  is_demographic_concept concept = true
  /\ fst (sex_slots concept q demographics uq) = "total"
  /\ any_in rate_words q = false.
Proof.
  intros Hu. unfold sex_slots, is_demographic_concept.
  change (any_in ["population"; "unemployment"; "life_expectancy"] concept)
    with (contains "population" concept
          || (contains "unemployment" concept || (contains "life_expectancy" concept || false))).
  destruct (contains "population" concept);
    destruct (contains "unemployment" concept || (contains "life_expectancy" concept || false));
    destruct (any_in rate_words q);
    simpl; split_ifs; simpl; intros Hin; try (by destruct Hu); done.
Qed.

(** X14.  [count_number] is among the qualifiers of a parsed question only when
    the concept is a demographic one, the sex is total and the question has
    none of the words growth, %, percent, share and ratio. *)
Theorem count_number_only_for_totals (result : Prediction) (question : string)
    (slots : Slots) :
  parse result question = Return slots ->
  "count_number" ∈ unit_qualifiers slots ->
  is_demographic_concept (concept slots) = true
  /\ sex slots = "total"
  /\ any_in rate_words (lower question) = false.
Proof.
  intros Hp. destruct (parse_return _ _ _ Hp) as (tm & y & ln & _ & ->). simpl.
  apply sex_slots_count, unit_slots_no_count.
Qed.


(** The question about the total population gets [count_number]. *)
Lemma count_number_only_for_totals_witness :
  exists slots,
    parse population_answer population_question = Return slots
    /\ "count_number" ∈ unit_qualifiers slots
    /\ is_demographic_concept (concept slots) = true
    /\ sex slots = "total"
    /\ any_in rate_words (lower population_question) = false.
Proof.
  eexists. split; [reflexivity|].
  assert (Hin : "count_number" ∈ ["count_number"]) by apply list_elem_of_here.
  split; [exact Hin|].
  apply (count_number_only_for_totals population_answer population_question _ eq_refl Hin).
Defined.

Lemma any_in_mono (words : list string) (s t : string) :
  contains s t = true -> any_in words s = true -> any_in words t = true.
Proof.
  intros Hst. unfold any_in. rewrite !existsb_exists.
  intros (x & Hx & Hxs). exists x. split; [done|]. by apply (contains_trans x s t).
Qed.

Lemma not_contains_mono (x y s : string) :
  contains x y = true -> contains x s = false -> contains y s = false.
Proof.
  intros Hxy Hxs. destruct (contains y s) eqn:Hys; [|done].
  by rewrite (contains_trans x y s Hxy Hys) in Hxs.
Qed.

(** X15.  The sex words are looked for as substrings of the question.  For a
    demographic concept, a question that has a word with man, men, male or
    boys inside it (unemployment and Germany are such words), no female word
    and not the word total, is given the sex male. *)
Theorem word_with_male_substring_parsed_as_male (result : Prediction)
    (question word : string) (slots : Slots) :
  parse result question = Return slots ->
  any_in male_words word = true ->
  contains word (lower question) = true ->
  is_demographic_concept (concept slots) = true ->
  contains "total" (lower question) = false ->
  any_in female_words (lower question) = false ->
  sex slots = "male".
Proof.
  intros Hp Hw Hq Hd Ht Hf.
  destruct (parse_return _ _ _ Hp) as (tm & y & ln & _ & ->). cbn [sex concept] in *.
  set (q := lower question) in *.
  pose proof (any_in_mono male_words word q Hq Hw) as Hm.
  unfold sex_slots. rewrite Hd.
  rewrite (not_contains_mono "total" "total population" q eq_refl Ht).
  rewrite (not_contains_mono "total" "total pop" q eq_refl Ht).
  rewrite Ht, andb_false_r. fold female_words male_words. rewrite Hf, Hm.
  assert (Hf2 : any_in ["female"; "females"] q = false).
  { unfold any_in, female_words in *. simpl in *.
    apply orb_false_iff in Hf as [-> Hf]. apply orb_false_iff in Hf as [-> _]. done. }
  rewrite Hf2. simpl. by split_ifs.
Qed.

Lemma word_with_male_substring_parsed_as_male_witness :
  exists slots,
    parse unemployment_answer unemployment_question = Return slots
    /\ sex slots = "male".
Proof.
  eexists. split; [reflexivity|].
  apply (word_with_male_substring_parsed_as_male
           unemployment_answer unemployment_question "unemployment");
    reflexivity.
Defined.

(** ** The index and the resolver *)

Lemma has_sex_female_code (ind_id : string) :
  has_sex ind_id "female" = true -> contains ".FE" ind_id = true.
Proof.
  unfold has_sex. simpl.
  intros [[[H|H]%orb_true_iff|H]%orb_true_iff|H]%orb_true_iff.
  - by apply (contains_trans ".FE" ".FE." ind_id).
  - by apply (contains_trans ".FE" ".FE.IN" ind_id), endswith_contains.
  - by apply (contains_trans ".FE" ".FE.ZS" ind_id), endswith_contains.
  - by apply endswith_contains.
Qed.

Lemma has_sex_male_code (ind_id : string) :
  has_sex ind_id "male" = true -> contains ".MA" ind_id = true.
Proof.
  unfold has_sex. simpl.
  intros [[[H|H]%orb_true_iff|H]%orb_true_iff|H]%orb_true_iff.
  - by apply (contains_trans ".MA" ".MA." ind_id).
  - by apply (contains_trans ".MA" ".MA.IN" ind_id), endswith_contains.
  - by apply (contains_trans ".MA" ".MA.ZS" ind_id), endswith_contains.
  - by apply endswith_contains.
Qed.

Lemma contains_document (x : string) (row : Row) :
  solid x -> x ∈ id_parts (row_id row) -> contains x (document row) = true.
Proof.
  intros Hx Hin. unfold document. cbv zeta.
  apply contains_strip; [done|].
  apply contains_app_r, contains_app_r, contains_app_l. by apply contains_join.
Qed.

Lemma elem_of_if_app {A} (b : bool) (x a : A) (l : list A) :
  x ∈ l -> x ∈ (if b then l ++ [a] else l).
Proof. intros Hx. destruct b; [|done]. apply elem_of_app. by left. Qed.

Lemma elem_of_app_last {A} (x : A) (l : list A) : x ∈ l ++ [x].
Proof. apply elem_of_app. right. apply list_elem_of_here. Qed.

Ltac id_part H :=
  unfold id_parts; cbv zeta; rewrite H; cbv iota;
  repeat apply elem_of_if_app; apply elem_of_app_last.

Lemma document_tags (row : Row) :
  (has_sex (row_id row) "female" = true -> contains "female" (document row) = true)
  /\ (has_sex (row_id row) "male" = true -> contains "male" (document row) = true)
  /\ (has_age (row_id row) "65up" = true ->
      contains "ages 65 and above elderly" (document row) = true)
  /\ (has_age (row_id row) "1524" = true ->
      contains "ages 15-24 youth" (document row) = true).
Proof.
  repeat split.
  - intros H%has_sex_female_code. apply contains_document; [by apply solid_literal|].
    id_part H.
  - intros H%has_sex_male_code. apply contains_document; [by apply solid_literal|].
    id_part H.
  - unfold has_age. simpl. intros H. apply contains_document; [by apply solid_literal|].
    id_part H.
  - unfold has_age. simpl. intros H. apply contains_document; [by apply solid_literal|].
    id_part H.
Qed.



Lemma build_document_corpus_from (ind_df : list Row) (ids docs : list string) :
  foldl (fun '(ids, docs) row => (ids ++ [row_id row], docs ++ [document row]))
        (ids, docs) ind_df
  = (ids ++ map row_id ind_df, docs ++ map document ind_df).
Proof.
  revert ids docs. induction ind_df as [|row ind_df IH]; intros ids docs; simpl.
  - by rewrite !app_nil_r.
  - by rewrite IH, <- !app_assoc.
Qed.

Lemma build_document_corpus_map (ind_df : list Row) :
  build_document_corpus ind_df = (map row_id ind_df, map document ind_df).
Proof. unfold build_document_corpus. by rewrite build_document_corpus_from. Qed.

(** X16.  The document at a position of the corpus has the words that match the
    id at that position: whenever the resolver accepts the id for the sex
    female or male, or for the age band 65up or 1524, the document the index
    embeds has the words female, male, ages 65 and above elderly or ages
    15-24 youth.  The tags are put in on a weaker test of the id than the
    one the resolver applies. *)
Theorem indexed_documents_are_tagged (ind_df : list Row) (i : nat) (ind_id doc : string) :
  (build_document_corpus ind_df).1 !! i = Some ind_id ->
  (build_document_corpus ind_df).2 !! i = Some doc ->
  (has_sex ind_id "female" = true -> contains "female" doc = true)
  /\ (has_sex ind_id "male" = true -> contains "male" doc = true)
  /\ (has_age ind_id "65up" = true -> contains "ages 65 and above elderly" doc = true)
  /\ (has_age ind_id "1524" = true -> contains "ages 15-24 youth" doc = true).
Proof.
  rewrite build_document_corpus_map. cbn [fst snd].
  rewrite !list_lookup_fmap. destruct (ind_df !! i) as [row|]; [|discriminate].
  intros [= <-] [= <-]. apply document_tags.
Qed.

Lemma indexed_documents_are_tagged_witness :
  (has_sex "SP.POP.TOTL.FE.IN" "female" = true ->
   contains "female" (document female_population_row) = true)
  /\ (has_sex "SP.POP.TOTL.FE.IN" "male" = true ->
      contains "male" (document female_population_row) = true)
  /\ (has_age "SP.POP.TOTL.FE.IN" "65up" = true ->
      contains "ages 65 and above elderly" (document female_population_row) = true)
  /\ (has_age "SP.POP.TOTL.FE.IN" "1524" = true ->
      contains "ages 15-24 youth" (document female_population_row) = true).
Proof.
  apply (indexed_documents_are_tagged [female_population_row] 0); reflexivity.
Defined.


Lemma prefix_if_app (b : bool) (p s t : string) :
  String.prefix p s = true -> String.prefix p (if b then s +:+ t else s) = true.
Proof.
  intros Hp. destruct b; [|done].
  apply prefix_spec in Hp as [u ->]. apply prefix_spec. exists (u +:+ t).
  by rewrite append_assoc.
Qed.

(** The expansion only appends, and the synonyms of female and of male
    come first. *)
Lemma expand_query_prefix (query : string) :
  startswith (expand_query query)
    (query
     +:+ (if contains "female" (lower query) then " women girls" else "")
     +:+ (if contains "male" (lower query) then " men boys" else "")) = true.
Proof.
  unfold expand_query, startswith. cbv zeta. do 6 apply prefix_if_app.
  apply prefix_spec. exists "".
  destruct (contains "female" (lower query)), (contains "male" (lower query));
    by rewrite ?append_assoc, ?append_nil_r.
Qed.


(** X17.  A query with the word female in it, in any letter case, is also
    expanded as a male one, since the word male is inside it: the expanded
    query starts with the query followed by the synonyms of both. *)
Theorem female_query_gets_male_synonyms (query : string) :
  contains "female" (lower query) = true ->
  startswith (expand_query query) (query +:+ " women girls men boys") = true.
Proof.
  intros Hf.
  pose proof (contains_trans "male" "female" (lower query) eq_refl Hf) as Hm.
  pose proof (expand_query_prefix query) as Hp. rewrite Hf, Hm in Hp. exact Hp.
Qed.

Lemma female_query_gets_male_synonyms_witness :
  startswith (expand_query "Population, female")
             ("Population, female" +:+ " women girls men boys") = true.
Proof. apply female_query_gets_male_synonyms. reflexivity. Defined.

Section FemaleQuery.

Context `{SetOrder}.

Lemma query_bits_sex (slots : Slots) :
  sex slots = "female" -> "female" ∈ query_bits slots.
Proof.
  intros Hs. unfold query_bits. cbv zeta. rewrite Hs.
  change (truthy "female" && negb (String.eqb "female" "total")) with true. cbv iota.
  destruct (_ && _); list_mem.
Qed.

(** X18.  The query built for slots with the sex female is expanded with the
    synonyms of female and of male alike before it is embedded. *)
Theorem female_slots_query_gets_male_synonyms (slots : Slots) :
  sex slots = "female" ->
  startswith (expand_query (build_query_terms slots))
             (build_query_terms slots +:+ " women girls men boys") = true.
Proof.
  intros Hs.
  assert (Hf : contains "female" (lower (build_query_terms slots)) = true).
  { apply (contains_lower "female"). unfold build_query_terms. cbv zeta.
    assert (Hq : contains "female" (strip (join " " (query_bits slots))) = true).
    { apply contains_strip; [by apply solid_literal|].
      by apply contains_join, query_bits_sex. }
    destruct (strip (join " " (query_bits slots))); [discriminate|exact Hq]. }
  pose proof (contains_trans "male" "female" _ eq_refl Hf) as Hm.
  pose proof (expand_query_prefix (build_query_terms slots)) as Hp.
  rewrite Hf, Hm in Hp. exact Hp.
Qed.

End FemaleQuery.

Lemma female_slots_query_gets_male_synonyms_witness :
  startswith (expand_query (@build_query_terms insertion_order female_population_slots))
             (@build_query_terms insertion_order female_population_slots
              +:+ " women girls men boys") = true.
Proof.
  apply (@female_slots_query_gets_male_synonyms insertion_order female_population_slots).
  reflexivity.
Defined.

(** ** The retry loop of the client *)

Section Client.

Import ApiClient.

Lemma wait_time_seconds (i : nat) :
  (i < 1024)%nat -> wait_time (Z.of_nat i) = Ok (wait_seconds i).
Proof.
  intros Hi. unfold wait_time, float_of_int, wait_seconds.
  assert (Hall : forallb (fun i => negb (PrimFloat.is_infinity
                   (SF2Prim (binary_normalize prec emax (2 ^ Z.of_nat i) 0 false))))
                   (List.seq 0 1024) = true) by (vm_compute; reflexivity).
  rewrite forallb_forall in Hall. specialize (Hall i).
  rewrite in_seq in Hall. apply negb_true_iff in Hall; [|lia]. by rewrite Hall.
Qed.

Lemma after_failures_S (c : Calls) (k : nat) :
  {| requests := requests (after_failures c k) + 1;
     slept := slept (after_failures c k) ++ [wait_seconds k] |}
  = after_failures c (S k).
Proof.
  unfold after_failures. cbn [requests slept]. f_equal; [lia|].
  rewrite seq_S, map_app, <- app_assoc. done.
Qed.

Lemma after_failures_0 (c : Calls) : after_failures c 0 = c.
Proof. destruct c. unfold after_failures. simpl. by rewrite Nat.add_0_r, app_nil_r. Qed.


Section Fetch.

Variables (w : World) (self : WorldBankClient) (url : string).

Lemma fetch_loop_failures (c : Calls) (msgs : nat -> string) (k : nat) :
  forall (a n : nat) (last_error : option string),
  (Z.of_nat (a + k) <= retries self)%Z ->
  (a + k <= 1024)%nat ->
  (forall i, (a <= i < a + k)%nat ->
     fails_with (get w url (requests c + i)) (msgs i)
     /\ sleep w (wait_seconds i) = None) ->
  fetch_loop w self url (k + n) (Z.of_nat a) last_error (after_failures c a)
  = fetch_loop w self url n (Z.of_nat (a + k))
      (if k is O then last_error else Some (msgs (a + k - 1)%nat))
      (after_failures c (a + k)).
Proof.
  induction k as [|k IH]; intros a n last_error Hr Hk Hf.
  - by rewrite Nat.add_0_r.
  - change (S k + n)%nat with (S (k + n)). cbn [fetch_loop].
    destruct (Hf a ltac:(lia)) as [Ha Hs]. unfold fails_with in Ha.
    change (requests (after_failures c a)) with (requests c + a)%nat. rewrite Ha.
    destruct (Z.ltb_spec (Z.of_nat a) (retries self)) as [_|?]; [|lia].
    rewrite wait_time_seconds, Hs by lia. cbn [requests slept].
    replace (S (requests c + a)) with (requests (after_failures c a) + 1)%nat
      by (simpl; lia).
    rewrite after_failures_S.
    replace (Z.of_nat a + 1)%Z with (Z.of_nat (S a)) by lia.
    rewrite IH by (try lia; intros i Hi; apply Hf; lia).
    replace (S a + k)%nat with (a + S k)%nat by lia.
    destruct k; [|done]. by replace (a + 1 - 1)%nat with a by lia.
Qed.

(** X19.  When the first [k] replies fail, [k] being at most [retries] (and at
    most 1024, so that every wait is a float), each sleep returns and the
    next reply has status 200 and a body, [fetch] returns that body after
    [k + 1] requests, having slept [0.5 * 2 ** i] seconds after the failure
    of attempt [i]. *)
Theorem fetch_returns_first_success (c : Calls) (msgs : nat -> string) (k : nat)
    (response : Response) (body : json) :
  (Z.of_nat k <= retries self)%Z ->
  (k <= 1024)%nat ->
  (forall i, (i < k)%nat ->
     fails_with (get w url (requests c + i)) (msgs i)
     /\ sleep w (wait_seconds i) = None) ->
  get w url (requests c + k) = Ok response ->
  status_code response = 200%Z ->
  json_body response = Ok body ->
  fetch w self url c
  = (Ok body, {| requests := requests c + k + 1;
                 slept := slept c ++ map wait_seconds (List.seq 0 k) |}).
Proof.
  intros Hr Hk Hf Hg Hs Hb. unfold fetch.
  replace (Z.to_nat (retries self + 1)) with (k + S (Z.to_nat (retries self) - k))%nat by lia.
  rewrite <- (after_failures_0 c) at 1.
  rewrite (fetch_loop_failures c msgs k 0) by (try done; intros i Hi; apply Hf; lia).
  cbn [fetch_loop]. change (requests (after_failures c (0 + k))) with (requests c + (0 + k))%nat.
  rewrite Nat.add_0_l, Hg. cbn [attempt_once]. rewrite Hs, Hb. simpl.
  do 2 f_equal. lia.
Qed.

(** X20.  When all [retries + 1] replies fail and each sleep returns, [fetch]
    raises [RuntimeError] with the number of attempts and the last failure
    in the message, after exactly [retries + 1] requests and [retries]
    sleeps: it does not sleep after the last attempt.  [retries] is at most
    1024, so that every wait is a float. *)
Theorem fetch_gives_up_after_all_attempts (c : Calls) (msgs : nat -> string) (r : nat) :
  retries self = Z.of_nat r ->
  (r <= 1024)%nat ->
  (forall i, (i <= r)%nat -> fails_with (get w url (requests c + i)) (msgs i)) ->
  (forall i, (i < r)%nat -> sleep w (wait_seconds i) = None) ->
  fetch w self url c
  = (Fail (RuntimeError ("World Bank API error after " +:+ pretty (Z.of_nat r + 1)%Z
                         +:+ " attempts: " +:+ msgs r)),
     {| requests := requests c + r + 1;
        slept := slept c ++ map wait_seconds (List.seq 0 r) |}).
Proof.
  intros Hr Hk Hf Hs. unfold fetch.
  replace (Z.to_nat (retries self + 1)) with (r + 1)%nat by lia.
  rewrite <- (after_failures_0 c) at 1.
  rewrite (fetch_loop_failures c msgs r 0);
    [| lia | lia | intros i Hi; split; [apply Hf | apply Hs]; lia].
  cbn [fetch_loop Nat.add]. change (requests (after_failures c r)) with (requests c + r)%nat.
  pose proof (Hf r ltac:(lia)) as Hl. unfold fails_with in Hl. rewrite Hl.
  destruct (Z.ltb_spec (Z.of_nat r) (retries self)) as [?|_]; [lia|].
  rewrite Hr. simpl. do 2 f_equal. lia.
Qed.

Lemma fetch_loop_bounds (n : nat) :
  forall (attempt : Z) (last_error : option string) (c : Calls),
  let c' := (fetch_loop w self url n attempt last_error c).2 in
  (requests c <= requests c' <= requests c + n)%nat
  /\ (length (slept c') <= length (slept c) + Z.to_nat (retries self - attempt))%nat.
Proof.
  induction n as [|n IH]; intros attempt last_error c; cbn [fetch_loop].
  - simpl. lia.
  - destruct (attempt_once _) as [msg|result]; [|simpl; lia].
    destruct (Z.ltb_spec attempt (retries self)).
    + destruct (wait_time attempt) as [t|e]; [|simpl; lia].
      destruct (sleep w t); [simpl; lia|].
      specialize (IH (attempt + 1)%Z (Some msg)
                    {| requests := S (requests c); slept := slept c ++ [t] |}).
      cbn zeta in *. cbn [requests slept] in *. rewrite length_app in IH.
      cbn [length] in IH. lia.
    + specialize (IH (attempt + 1)%Z (Some msg)
                    {| requests := S (requests c); slept := slept c |}).
      cbn zeta in *. cbn [requests slept] in *. lia.
Qed.

(** X21.  Whatever the replies, [fetch] makes at most [retries + 1] requests and
    sleeps at most [retries] times. *)
Theorem fetch_call_bounds (c : Calls) :
  let c' := (fetch w self url c).2 in
  (requests c <= requests c' <= requests c + Z.to_nat (retries self + 1))%nat
  /\ (length (slept c') <= length (slept c) + Z.to_nat (retries self))%nat.
Proof.
  pose proof (fetch_loop_bounds (Z.to_nat (retries self + 1)) 0 None c) as H.
  by rewrite Z.sub_0_r in H.
Qed.

Lemma fetch_loop_sound (n : nat) :
  forall (attempt : Z) (last_error : option string) (c c' : Calls) (body : json),
  fetch_loop w self url n attempt last_error c = (Ok body, c') ->
  exists response,
    (requests c < requests c')%nat
    /\ get w url (requests c' - 1) = Ok response
    /\ status_code response = 200%Z
    /\ json_body response = Ok body.
Proof.
  induction n as [|n IH]; intros attempt last_error c c' body; cbn [fetch_loop];
    [discriminate|].
  destruct (attempt_once (get w url (requests c))) as [msg|result] eqn:Ha.
  - assert (Hnext : forall c1, requests c1 = S (requests c) ->
              fetch_loop w self url n (attempt + 1) (Some msg) c1 = (Ok body, c') ->
              exists response,
                (requests c < requests c')%nat
                /\ get w url (requests c' - 1) = Ok response
                /\ status_code response = 200%Z
                /\ json_body response = Ok body).
    { intros c1 Hc1 (r & Hlt & Hrest)%IH. exists r. split; [lia|done]. }
    destruct (attempt <? retries self)%Z.
    + destruct (wait_time attempt) as [t|e]; [|discriminate].
      destruct (sleep w t); [discriminate|]. by apply Hnext.
    + by apply Hnext.
  - intros [= -> <-]. cbn [requests]. rewrite Nat.sub_succ, Nat.sub_0_r.
    unfold attempt_once in Ha.
    destruct (get w url (requests c)) as [response|e]; [|by destruct e].
    exists response.
    destruct (Z.eqb_spec (status_code response) 200) as [Hs|Hs]; [|discriminate].
    destruct (json_body response) as [b|e]; [|by destruct e].
    injection Ha as ->. repeat split; [lia|done].
Qed.

(** X22.  What [fetch] returns is the body of the last request it made, whose
    reply had status 200. *)
Theorem fetch_returns_body_of_last_request (c c' : Calls) (body : json) :
  fetch w self url c = (Ok body, c') ->
  exists response,
    (requests c < requests c')%nat
    /\ get w url (requests c' - 1) = Ok response
    /\ status_code response = 200%Z
    /\ json_body response = Ok body.
Proof. apply fetch_loop_sound. Qed.


End Fetch.

(** Two failures, then an answer: three requests and two sleeps. *)
Lemma fetch_returns_first_success_witness :
  fetch flaky_world default_client sample_url no_calls
  = (Ok (JList []),
     {| requests := requests no_calls + 2 + 1;
        slept := slept no_calls ++ map wait_seconds (List.seq 0 2) |}).
Proof.
  apply (fetch_returns_first_success flaky_world default_client sample_url no_calls
           failure_texts 2 (mkResponse 200 (Ok (JList []))) (JList [])).
  - vm_compute. discriminate.
  - lia.
  - intros [|[|i]] Hi; [split; reflexivity | split; reflexivity | lia].
  - reflexivity.
  - reflexivity.
  - reflexivity.
Defined.

(** Three answers with status 500: three requests, two sleeps, an error. *)
Lemma fetch_gives_up_after_all_attempts_witness :
  fetch down_world default_client sample_url no_calls
  = (Fail (RuntimeError ("World Bank API error after " +:+ pretty (Z.of_nat 2 + 1)%Z
                         +:+ " attempts: " +:+ "HTTP 500")),
     {| requests := requests no_calls + 2 + 1;
        slept := slept no_calls ++ map wait_seconds (List.seq 0 2) |}).
Proof.
  apply (fetch_gives_up_after_all_attempts down_world default_client sample_url no_calls
           (fun _ => "HTTP 500") 2).
  - reflexivity.
  - lia.
  - intros i _. reflexivity.
  - intros i _. reflexivity.
Defined.

Lemma fetch_returns_body_of_last_request_witness :
  exists response,
    (requests no_calls < 3)%nat
    /\ get flaky_world sample_url (3 - 1) = Ok response
    /\ status_code response = 200%Z
    /\ json_body response = Ok (JList []).
Proof.
  apply (fetch_returns_body_of_last_request flaky_world default_client sample_url
           no_calls (mkCalls 3 [0.5; 1]%float) (JList [])).
  reflexivity.
Defined.

End Client.

(** ** The value read from a payload *)

Section PayloadFacts.

Import ApiClient Payload.

Variable float_of_str : string -> option float.

#[local] Abbreviation py_float := (Payload.py_float float_of_str).

#[local] Abbreviation exact_year := (Payload.exact_year float_of_str).

#[local] Abbreviation first_available := (Payload.first_available float_of_str).

#[local] Abbreviation parse_value := (Payload.parse_value float_of_str).

Lemma exact_year_none (data : list json) (y : Z) :
  exact_year data y = None -> Forall (fun row => forall value, ~ exact_row float_of_str y value row) data.
Proof.
  induction data as [|row data IH]; [constructor|].
  destruct row as [| | | | | |items]; try discriminate. cbn [Payload.exact_year].
  intros H. constructor.
  - intros value (items' & [= <-] & Hy & Hn & Hv). rewrite Hy, Z.eqb_refl, Hn, Hv in H.
    discriminate.
  - apply IH. destruct (py_int _) as [year|e].
    + destruct (_ && _); [|done]. destruct (py_float _) as [|e]; [discriminate|].
      by destruct (caught e).
    + by destruct (caught e).
Qed.

Lemma exact_year_some (data : list json) (y year : Z) (value : float) :
  exact_year data y = Some (Ok (value, year)) ->
  year = y /\ Exists (exact_row float_of_str y value) data.
Proof.
  induction data as [|row data IH]; [discriminate|].
  destruct row as [| | | | | |items]; try discriminate. cbn [Payload.exact_year].
  destruct (py_int (item items "date")) as [year'|e] eqn:Hy.
  - destruct (Z.eqb_spec year' y) as [->|Hne]; simpl.
    + destruct (is_none (item items "value")) eqn:Hn; simpl.
      * intros [-> Hex]%IH. split; [done|]. by apply Exists_cons_tl.
      * destruct (py_float (item items "value")) as [v|e] eqn:Hv.
        -- intros [= <- <-]. split; [done|]. apply Exists_cons_hd. by exists items.
        -- destruct (caught e); [|discriminate].
           intros [-> Hex]%IH. split; [done|]. by apply Exists_cons_tl.
    + intros [-> Hex]%IH. split; [done|]. by apply Exists_cons_tl.
  - destruct (caught e); [|discriminate].
    intros [-> Hex]%IH. split; [done|]. by apply Exists_cons_tl.
Qed.

Lemma first_available_value (data : list json) (value : float) (year : option Z) :
  first_available data = Ok (Some value, year) ->
  exists before items after,
    data = before ++ JDict items :: after
    /\ Forall no_value before
    /\ is_none (item items "value") = false
    /\ py_float (item items "value") = Ok value
    /\ year = match py_int (item items "date") with Ok y => Some y | Fail _ => None end.
Proof.
  induction data as [|row data IH]; [discriminate|].
  destruct row as [| | | | | |items]; try discriminate. cbn [Payload.first_available].
  destruct (is_none (item items "value")) eqn:Hn; simpl.
  - intros (before & items' & after & -> & Hb & Hrest)%IH.
    exists (JDict items :: before), items', after. split; [done|].
    split; [|done]. constructor; [by exists items | done].
  - destruct (py_float (item items "value")) as [v|e] eqn:Hv; [|discriminate].
    destruct (py_int (item items "date")) as [y|e] eqn:Hy.
    + intros [= <- <-]. exists [], items, data. by rewrite Hy.
    + destruct (caught e); [|discriminate]. intros [= <- <-].
      exists [], items, data. by rewrite Hy.
Qed.

Lemma first_available_none (data : list json) (year : option Z) :
  first_available data = Ok (None, year) -> year = None /\ Forall no_value data.
Proof.
  induction data as [|row data IH]; [by intros [= <-]|].
  destruct row as [| | | | | |items]; try discriminate. cbn [Payload.first_available].
  destruct (is_none (item items "value")) eqn:Hn; simpl.
  - intros [-> Hall]%IH. split; [done|]. constructor; [by exists items | done].
  - destruct (py_float _); [|discriminate].
    destruct (py_int _) as [|e]; [discriminate|]. by destruct (caught e).
Qed.

(** X23.  The requested year is preferred: when a year other than 0 is asked for
    and [parse_value] answers with another year or none, no row of the data
    has the requested year together with a value that converts. *)
Theorem other_year_only_without_exact_row (meta : json) (data rest : list json) (y : Z)
    (value : option float) (year : option Z) :
  parse_value (JList (meta :: JList data :: rest)) (Some y) = Ok (value, year) ->
  y <> 0%Z ->
  year <> Some y ->
  Forall (fun row => forall value', ~ exact_row float_of_str y value' row) data.
Proof.
  cbn [Payload.parse_value]. intros Hp Hy Hne.
  destruct (Z.eqb_spec y 0) as [?|_]; [done|]. simpl in Hp.
  destruct (exact_year data y) as [[[v yr]|e]|] eqn:He; [|discriminate|].
  - apply exact_year_some in He as [-> _]. injection Hp as <- <-. done.
  - by apply exact_year_none.
Qed.

(** X24.  The value returned comes from a row with the requested year or, when
    the first loop finds none, from the first row that has a value, whose
    year is returned with it when [int] converts it. *)
Theorem value_from_exact_or_first_row (meta : json) (data rest : list json)
    (requested_year : option Z) (value : float) (year : option Z) :
  parse_value (JList (meta :: JList data :: rest)) requested_year = Ok (Some value, year) ->
  (year = requested_year
   /\ exists y, requested_year = Some y /\ Exists (exact_row float_of_str y value) data)
  \/ exists before items after,
       data = before ++ JDict items :: after
       /\ Forall no_value before
       /\ is_none (item items "value") = false
       /\ py_float (item items "value") = Ok value
       /\ year = match py_int (item items "date") with Ok y => Some y | Fail _ => None end.
Proof.
  cbn [Payload.parse_value]. intros Hp.
  assert (Hf : first_available data = Ok (Some value, year) ->
               exists before items after,
                 data = before ++ JDict items :: after
                 /\ Forall no_value before
                 /\ is_none (item items "value") = false
                 /\ py_float (item items "value") = Ok value
                 /\ year = match py_int (item items "date") with
                           | Ok y => Some y | Fail _ => None end)
    by apply first_available_value.
  destruct requested_year as [y|]; [|right; auto].
  destruct (negb (y =? 0)%Z); [|right; auto].
  destruct (exact_year data y) as [[[v yr]|e]|] eqn:He; [|discriminate|right; auto].
  apply exact_year_some in He as [-> Hex]. injection Hp as <- <-.
  left. split; [done|]. by exists y.
Qed.

(** X25.  [parse_value] answers without a value only when no row of the data has
    one, and then without a year. *)
Theorem no_value_only_without_data (meta : json) (data rest : list json)
    (requested_year year : option Z) :
  parse_value (JList (meta :: JList data :: rest)) requested_year = Ok (None, year) ->
  year = None /\ Forall no_value data.
Proof.
  cbn [Payload.parse_value]. intros Hp.
  destruct requested_year as [y|]; [|by apply first_available_none].
  destruct (negb (y =? 0)%Z); [|by apply first_available_none].
  destruct (exact_year data y) as [[[v yr]|e]|]; [discriminate|discriminate|].
  by apply first_available_none.
Qed.


End PayloadFacts.

Section PayloadExamples.

Import ApiClient Payload.

(** The year 2018 is asked for and no row has it: the first row with a
    value, the one of 2020, is returned. *)
Lemma other_year_only_without_exact_row_witness :
  Forall (fun row => forall value', ~ exact_row no_float_of_str 2018 value' row) sample_rows.
Proof.
  apply (other_year_only_without_exact_row no_float_of_str sample_meta sample_rows []
           2018 (Some 5%float) (Some 2020%Z)).
  - reflexivity.
  - discriminate.
  - discriminate.
Defined.

(** The year 2019 is asked for and its row is returned. *)
Lemma value_from_exact_or_first_row_witness :
  (Some 2019%Z = Some 2019%Z
   /\ exists y, Some 2019%Z = Some y /\ Exists (exact_row no_float_of_str y 4%float) sample_rows)
  \/ exists before items after,
       sample_rows = before ++ JDict items :: after
       /\ Forall no_value before
       /\ is_none (item items "value") = false
       /\ Payload.py_float no_float_of_str (item items "value") = Ok 4%float
       /\ Some 2019%Z = match py_int (item items "date") with
                         | Ok y => Some y | Fail _ => None end.
Proof.
  apply (value_from_exact_or_first_row no_float_of_str sample_meta sample_rows []
           (Some 2019%Z) 4%float (Some 2019%Z)).
  reflexivity.
Defined.

(** Data whose only row has no value. *)
Lemma no_value_only_without_data_witness :
  @None Z = None /\ Forall no_value empty_rows.
Proof.
  apply (no_value_only_without_data no_float_of_str sample_meta empty_rows []
           (Some 2020%Z) None).
  reflexivity.
Defined.

End PayloadExamples.
